(** * Path grammar and iterative link resolver of go-path

    A shallow embedding of the [path] package (ParsePath, Segments,
    PopLastSegment, SplitAbsPath, ...) and of the [resolver] package
    (ResolveLinks, ResolvePath, ResolveToLastNode), followed by the
    properties of the two that the specification states. *)

From Stdlib Require Import String Ascii List Bool Arith ZArith Lia.
Import ListNotations.
Open Scope list_scope.
Open Scope string_scope.

Set Implicit Arguments.

(** ** Go's [strings] and [path] helpers used by the package *)

Module GoStrings.

(** [strings.Split(s, "/")]: the substrings between the separators; a string
    holding n separators gives n+1 substrings, so the result is never empty. *)
Fixpoint Split (s : string) : list string :=
  match s with
  | EmptyString => [""]
  | String c s' =>
      if Ascii.eqb c "/"%char then "" :: Split s'
      else match Split s' with
           | [] => [String c ""]
           | h :: t => String c h :: t
           end
  end.

(** [strings.Join(elems, "/")]. *)
Fixpoint Join (elems : list string) : string :=
  match elems with
  | [] => ""
  | [e] => e
  | e :: rest => e ++ "/" ++ Join rest
  end.

(** [len(s) == 0] on a string. *)
Definition is_empty (s : string) : bool :=
  match s with EmptyString => true | _ => false end.

(** [path[0] == '/'], for a non-empty path. *)
Definition rooted (s : string) : bool :=
  match s with String c _ => Ascii.eqb c "/"%char | EmptyString => false end.

(** The output buffer of [path.Clean], kept as the list of path elements
    written so far (last written first) with [dotdot], the number of leading
    elements that a later [..] may not remove. *)
Record lazybuf : Type := mkbuf { elems : list string; dotdot : nat }.

(** One path element of the input, as the [switch] of [path.Clean] treats it:
    an empty element (a run of slashes) and [.] are skipped; [..] removes the
    last written element when it can backtrack, is appended when the path is
    not rooted and is dropped at the root; any other element is copied. *)
Definition clean_step (is_rooted : bool) (out : lazybuf) (e : string) : lazybuf :=
  if String.eqb e "" then out
  else if String.eqb e "." then out
  else if String.eqb e ".." then
    if Nat.ltb (dotdot out) (List.length (elems out))
    then mkbuf (tl (elems out)) (dotdot out)
    else if is_rooted then out
    else mkbuf (".." :: elems out) (S (List.length (elems out)))
  else mkbuf (e :: elems out) (dotdot out).

(** [path.Clean]: the shortest path name equivalent to [path] by purely
    lexical processing. The empty string becomes ["."]. *)
Definition Clean (path : string) : string :=
  if is_empty path then "."
  else
    let out := fold_left (clean_step (rooted path)) (Split path) (mkbuf [] 0) in
    if rooted path then "/" ++ Join (rev (elems out))
    else if Nat.eqb (List.length (elems out)) 0 then "."
    else Join (rev (elems out)).

(** A string without a slash: splitting leaves it whole. *)
Definition no_slash (s : string) : Prop := Split s = [s].

(** A path element that [Clean] copies as it is. *)
Definition plain (s : string) : Prop :=
  s <> "" /\ s <> "." /\ s <> ".." /\ no_slash s.

End GoStrings.
Export GoStrings.

(** ** Errors

    The error values of the two packages and of their collaborators.
    [ErrLinkNotFound] is merkledag's sentinel, which [ResolveLinks] compares
    against; [ErrorsNew] is an error built in place with [errors.New];
    [ErrForeign] is any other error of a collaborator (identifier decoder,
    fetch service, node). *)
Inductive error (Cid : Type) : Type :=
  | ErrBadPath
  | ErrNoComponents
  | ErrLinkNotFound
  | ErrNoLink (Name : string) (Node : Cid)
  | ErrorsNew (msg : string)
  | ErrForeign (msg : string).

Arguments ErrBadPath {Cid}.
Arguments ErrNoComponents {Cid}.
Arguments ErrLinkNotFound {Cid}.
Arguments ErrNoLink {Cid} Name Node.
Arguments ErrorsNew {Cid} msg.
Arguments ErrForeign {Cid} msg.

(** [err == dag.ErrLinkNotFound]. *)
Definition is_ErrLinkNotFound {Cid} (e : error Cid) : bool :=
  match e with ErrLinkNotFound => true | _ => false end.

(** The content identifier package: [cid.Decode] and the [String] method of a [Cid]. *)
Class CidCodec (Cid : Type) : Type := {
  Decode : string -> error Cid + Cid;
  CidString : Cid -> string
}.

(** ** Package path *)

Module PathPkg.
Section Path.

Context {Cid : Type} `{CidCodec Cid}.

(** [type Path string]. *)
Definition Path : Type := string.

Definition FromString (s : string) : Path := s.

Definition FromCid (c : Cid) : Path := "/dms3fs/" ++ CidString c.

(** [Segments]: the cleaned path split at the slashes, without the empty
    element a leading slash gives. [strings.Split] returns no empty slice,
    so [segments[0]] is always there. *)
Definition Segments (p : Path) : list string :=
  let cleaned := Clean p in
  let segments := Split cleaned in
  match segments with
  | s0 :: rest => if Nat.eqb (String.length s0) 0 then rest else segments
  | [] => []
  end.

Definition PathString (p : Path) : string := p.

Definition IsJustAKey (p : Path) : bool :=
  let parts := Segments p in
  Nat.eqb (List.length parts) 2
  && (String.eqb (nth 0 parts "") "dms3fs" || String.eqb (nth 0 parts "") "dms3ld").

Definition ParseCidToPath (txt : string) : error Cid + Path :=
  if String.eqb txt "" then inl ErrNoComponents
  else match Decode txt with
       | inl err => inl err
       | inr c => inr (FromCid c)
       end.

(** [ParsePath]. [parts] comes from [strings.Split] and is never empty;
    [parts[1]] and [parts[2]] are read after the length check only. *)
Definition ParsePath (txt : string) : error Cid + Path :=
  let parts := Split txt in
  let kp :=
    if Nat.eqb (List.length parts) 1 then
      match ParseCidToPath txt with
      | inr kp => Some kp
      | inl _ => None
      end
    else None in
  match kp with
  | Some kp => inr kp
  | None =>
      if negb (String.eqb (nth 0 parts "") "") then
        match ParseCidToPath (nth 0 parts "") with
        | inl _ => inl ErrBadPath
        | inr _ => inr ("/dms3fs/" ++ txt)
        end
      else if Nat.ltb (List.length parts) 3 then inl ErrBadPath
      else if String.eqb (nth 1 parts "") "dms3fs" then
        match ParseCidToPath (nth 2 parts "") with
        | inl err => inl err
        | inr _ => inr txt
        end
      else if negb (String.eqb (nth 1 parts "") "dms3ns")
              && negb (String.eqb (nth 1 parts "") "dms3ld")
      then inl ErrBadPath
      else inr txt
  end.

(** [PopLastSegment]: [segs[:len(segs)-1]] is [removelast segs] and
    [segs[len(segs)-1]] is [last segs]. *)
Definition PopLastSegment (p : Path) : error Cid + (Path * string) :=
  if IsJustAKey p then inr (p, "")
  else
    let segs := Segments p in
    match ParsePath ("/" ++ Join (removelast segs)) with
    | inl err => inl err
    | inr newPath => inr (newPath, last segs "")
    end.

Definition FromSegments (prefix : string) (seg : list string) : error Cid + Path :=
  ParsePath (prefix ++ Join seg).

(** [IsValid]: the error of [ParsePath], [None] for [nil]. *)
Definition IsValid (p : Path) : option (error Cid) :=
  match ParsePath (PathString p) with
  | inl err => Some err
  | inr _ => None
  end.

(** [SplitAbsPath]. [parts[0]] is read without a length check: on an empty
    [parts] the run-time panics with an index out of range, which is the
    result [None] here. *)
Definition SplitAbsPath (fpath : Path) : option (error Cid + (Cid * list string)) :=
  match Segments fpath with
  | [] => None
  | p0 :: rest =>
      let parts :=
        if String.eqb p0 "dms3fs" || String.eqb p0 "dms3ld"
        then rest else p0 :: rest in
      match parts with
      | [] => Some (inl ErrNoComponents)
      | q0 :: rest' =>
          match Decode q0 with
          | inl err => Some (inl err)
          | inr c => Some (inr (c, rest'))
          end
      end
  end.

End Path.
End PathPkg.
Export PathPkg.

(** The two list helpers of the package, [Join] and [SplitList]; they are in
    a module of their own as [Join] is also the name of [strings.Join]. *)
Module PathLists.

Definition Join (pths : list string) : string := GoStrings.Join pths.

Definition SplitList (pth : string) : list string := GoStrings.Split pth.

End PathLists.

(** ** Collaborators of the resolver *)

(** [dms3ld.Link]: a named pointer to the content identifier of a node. *)
Record Link (Cid : Type) : Type := mkLink {
  Name : string;
  Size : N;
  LinkCid : Cid
}.

(** The dynamic value [nd.Resolve] yields: a pointer to a [dms3ld.Link] or anything else. *)
Inductive Value (Cid : Type) : Type :=
  | VLink (l : Link Cid)
  | VOther (repr : string).

Arguments VLink {Cid} l.
Arguments VOther {Cid} repr.

(** The part of the [dms3ld.Node] interface the resolver calls. Both resolve
    methods return Go's triple; no component is tied to another. *)
Class DagNode (Cid Node : Type) : Type := {
  NodeCid : Node -> Cid;
  ResolveLink : Node -> list string ->
                option (Link Cid) * list string * option (error Cid);
  Resolve : Node -> list string ->
            Value Cid * list string * option (error Cid)
}.

(** [context.Context] with [context.WithTimeout]. *)
Class Context (Ctx : Type) : Type := {
  WithTimeout : Ctx -> Z -> Ctx
}.

(** [time.Minute], in nanoseconds. *)
Definition Minute : Z := 60 * 1000000000.

(** [dms3ld.NodeGetter]. *)
Record NodeGetter (Ctx Cid Node : Type) : Type := mkGetter {
  Get : Ctx -> Cid -> error Cid + Node
}.

(** ** Package resolver *)

Module ResolverPkg.
Section Resolver.

Context {Ctx Cid Node : Type}.
Context `{CidCodec Cid} `{DagNode Cid Node} `{Context Ctx}.

(** Computations of the resolver: they read the fetch service, and the list
    of identifiers asked from it so far is threaded through. A computation
    returns, panics (nil dereference, index out of range) or runs out of
    fuel in one of the two loops. *)
Inductive outcome (A : Type) : Type :=
  | Ret (a : A) (fetched : list Cid)
  | Panic
  | OutOfFuel.

Arguments Panic {A}.
Arguments OutOfFuel {A}.

Definition M (A : Type) : Type := list Cid -> outcome A.

Definition ret {A} (a : A) : M A := fun fetched => Ret a fetched.

Definition bind {A B} (m : M A) (k : A -> M B) : M B :=
  fun fetched =>
    match m fetched with
    | Ret a fetched' => k a fetched'
    | Panic => Panic
    | OutOfFuel => OutOfFuel
    end.

Definition panic {A} : M A := fun _ => Panic.
Definition out_of_fuel {A} : M A := fun _ => OutOfFuel.

Local Notation "x <- m ;; k" := (bind m (fun x => k))
  (at level 61, m at next level, right associativity).
Local Notation "' pat <- m ;; k" := (bind m (fun x => match x with pat => k end))
  (at level 61, pat pattern, m at next level, right associativity).

(** [ds.Get(ctx, c)]: the only access to the fetch service. *)
Definition DAGGet (ds : NodeGetter Ctx Cid Node) (ctx : Ctx) (c : Cid)
  : M (error Cid + Node) :=
  fun fetched => Ret (Get ds ctx c) (fetched ++ [c])%list.

(** [GetNode], the method of a link in go-ld-format: [serv.Get(ctx, l.Cid)]. *)
Definition GetNode (l : Link Cid) (ctx : Ctx) (serv : NodeGetter Ctx Cid Node)
  : M (error Cid + Node) :=
  DAGGet serv ctx (LinkCid l).

(** [type ResolveOnce func(ctx, ds, nd, names)], returning a link pointer
    (nil or not), the names left and an error. *)
Definition ResolveOnceFn : Type :=
  Ctx -> NodeGetter Ctx Cid Node -> Node -> list string ->
  M (option (Link Cid) * list string * option (error Cid)).

Record Resolver : Type := mkResolver {
  DAG : NodeGetter Ctx Cid Node;
  ResolveOnce : ResolveOnceFn
}.

Definition ResolveSingle : ResolveOnceFn :=
  fun ctx ds nd names => ret (ResolveLink nd names).

Definition NewBasicResolver (ds : NodeGetter Ctx Cid Node) : Resolver :=
  {| DAG := ds; ResolveOnce := ResolveSingle |}.

(** The loop of [ResolveLinks]. [lnk.GetNode] on a nil link is a nil
    dereference. *)
Fixpoint ResolveLinks_loop (fuel : nat) (r : Resolver) (ctx : Ctx) (nd : Node)
    (names : list string) (result : list Node) : M (list Node * option (error Cid)) :=
  match names with
  | [] => ret (result, None)
  | name0 :: _ =>
      match fuel with
      | O => out_of_fuel
      | S fuel' =>
          let ctx := WithTimeout ctx Minute in
          '(lnk, rest, err) <- ResolveOnce r ctx (DAG r) nd names ;;
          match err with
          | Some e =>
              if is_ErrLinkNotFound e
              then ret (result, Some (ErrNoLink name0 (NodeCid nd)))
              else ret (result, Some e)
          | None =>
              match lnk with
              | None => panic
              | Some l =>
                  next <- GetNode l ctx (DAG r) ;;
                  match next with
                  | inl e => ret (result, Some e)
                  | inr nextnode =>
                      ResolveLinks_loop fuel' r ctx nextnode rest
                        (result ++ [nextnode])%list
                  end
              end
          end
      end
  end.

Definition ResolveLinks (fuel : nat) (r : Resolver) (ctx : Ctx) (ndd : Node)
    (names : list string) : M (list Node * option (error Cid)) :=
  ResolveLinks_loop fuel r ctx ndd names [ndd].

(** [ResolvePathComponents]; the nil slice is [None]. *)
Definition ResolvePathComponents (fuel : nat) (r : Resolver) (ctx : Ctx)
    (fpath : Path) : M (option (list Node) * option (error Cid)) :=
  match SplitAbsPath fpath with
  | None => panic
  | Some (inl err) => ret (None, Some err)
  | Some (inr (h, parts)) =>
      got <- DAGGet (DAG r) ctx h ;;
      match got with
      | inl err => ret (None, Some err)
      | inr nd =>
          '(result, err) <- ResolveLinks fuel r ctx nd parts ;;
          ret (Some result, err)
      end
  end.

(** [ResolvePath]; [nodes[len(nodes)-1]] on an empty slice is out of range. *)
Definition ResolvePath (fuel : nat) (r : Resolver) (ctx : Ctx) (fpath : Path)
  : M (option Node * option (error Cid)) :=
  match IsValid fpath with
  | Some err => ret (None, Some err)
  | None =>
      '(nodes, err) <- ResolvePathComponents fuel r ctx fpath ;;
      match err, nodes with
      | Some _, _ => ret (None, err)
      | None, None => ret (None, err)
      | None, Some nodes =>
          match rev nodes with
          | [] => panic
          | lastnode :: _ => ret (Some lastnode, err)
          end
      end
  end.

(** How the hop loop of [ResolveToLastNode] ends: by returning an error, or
    by leaving the loop with a cursor node and the names still to resolve. *)
Inductive hops : Type :=
  | HopsError (err : error Cid)
  | HopsDone (nd : Node) (p : list string).

Fixpoint ResolveToLastNode_loop (fuel : nat) (r : Resolver) (ctx : Ctx)
    (nd : Node) (p : list string) : M hops :=
  match p with
  | [] => ret (HopsDone nd p)
  | _ :: _ =>
      match fuel with
      | O => out_of_fuel
      | S fuel' =>
          '(lnk, rest, err) <- ResolveOnce r ctx (DAG r) nd p ;;
          match lnk with
          | None => ret (HopsDone nd p)
          | Some l =>
              match err with
              | Some e => ret (HopsError e)
              | None =>
                  next <- GetNode l ctx (DAG r) ;;
                  match next with
                  | inl e => ret (HopsError e)
                  | inr next => ResolveToLastNode_loop fuel' r ctx next rest
                  end
              end
          end
      end
  end.

(** The statements of [ResolveToLastNode] after its loop. *)
Definition ResolveToLastNode_tail (nd : Node) (p : list string)
  : option Cid * list string * option (error Cid) :=
  if Nat.eqb (List.length p) 0 then (Some (NodeCid nd), [], None)
  else
    let '(val, rest, err) := Resolve nd p in
    match err with
    | Some e => (None, [], Some e)
    | None =>
        if Nat.ltb 0 (List.length rest)
        then (None, [], Some (ErrorsNew "path failed to resolve fully"))
        else match val with
             | VLink _ =>
                 (None, [], Some (ErrorsNew "inconsistent ResolveOnce / nd.Resolve"))
             | VOther _ => (Some (NodeCid nd), p, None)
             end
    end.

Definition ResolveToLastNode (fuel : nat) (r : Resolver) (ctx : Ctx)
    (fpath : Path) : M (option Cid * list string * option (error Cid)) :=
  match SplitAbsPath fpath with
  | None => panic
  | Some (inl err) => ret (None, [], Some err)
  | Some (inr (c, p)) =>
      if Nat.eqb (List.length p) 0 then ret (Some c, [], None)
      else
        got <- DAGGet (DAG r) ctx c ;;
        match got with
        | inl err => ret (None, [], Some err)
        | inr nd =>
            h <- ResolveToLastNode_loop fuel r ctx nd p ;;
            match h with
            | HopsError err => ret (None, [], Some err)
            | HopsDone nd p => ret (ResolveToLastNode_tail nd p)
            end
        end
  end.

(** Successful hops of the strict walk, one after the other: from a cursor
    node and the names left, under the context and the fetch list of that
    moment, [ResolveOnce] gives a link and no error and the store gives the
    node of the link. [nodes] are the nodes reached, in order. *)
Inductive walks (r : Resolver)
  : Ctx -> Node -> list string -> list Cid -> list Node ->
    Ctx -> Node -> list string -> list Cid -> Prop :=
  | walks_refl ctx nd names fetched :
      walks r ctx nd names fetched [] ctx nd names fetched
  | walks_hop ctx nd name names fetched l rest fetched1 next
              nodes ctx' nd' names' fetched' :
      ResolveOnce r (WithTimeout ctx Minute) (DAG r) nd (name :: names) fetched
        = Ret (Some l, rest, None) fetched1 ->
      Get (DAG r) (WithTimeout ctx Minute) (LinkCid l) = inr next ->
      walks r (WithTimeout ctx Minute) next rest (fetched1 ++ [LinkCid l])%list
            nodes ctx' nd' names' fetched' ->
      walks r ctx nd (name :: names) fetched (next :: nodes) ctx' nd' names' fetched'.

(** Successful hops of the loop of [ResolveToLastNode], one after the other,
    all under the context the function was called with: [ResolveOnce] gives a
    link and no error and the store gives the node of the link. [nodes] are
    the nodes reached, in order. *)
Inductive follows (r : Resolver) (ctx : Ctx)
  : Node -> list string -> list Cid -> list Node ->
    Node -> list string -> list Cid -> Prop :=
  | follows_refl nd p fetched :
      follows r ctx nd p fetched [] nd p fetched
  | follows_hop nd name names fetched l rest fetched1 next
                nodes nd' p' fetched' :
      ResolveOnce r ctx (DAG r) nd (name :: names) fetched
        = Ret (Some l, rest, None) fetched1 ->
      Get (DAG r) ctx (LinkCid l) = inr next ->
      follows r ctx next rest (fetched1 ++ [LinkCid l])%list
              nodes nd' p' fetched' ->
      follows r ctx nd (name :: names) fetched (next :: nodes) nd' p' fetched'.

(** A chain of nodes in the store [ds]: [nd] has a link for the first name
    (its link lookup consumes that one name), the store holds the node the
    link points to, and the chain goes on from there with the other names. *)
Inductive chain (ds : NodeGetter Ctx Cid Node)
  : Ctx -> Node -> list string -> list Node -> Prop :=
  | chain_nil ctx nd : chain ds ctx nd [] []
  | chain_cons ctx nd name names l next nodes :
      ResolveLink nd (name :: names) = (Some l, names, None) ->
      Get ds (WithTimeout ctx Minute) (LinkCid l) = inr next ->
      chain ds (WithTimeout ctx Minute) next names nodes ->
      chain ds ctx nd (name :: names) (next :: nodes).

End Resolver.

Arguments Panic {Cid A}.
Arguments OutOfFuel {Cid A}.
Arguments Resolver : clear implicits.
Arguments ResolveOnceFn : clear implicits.
Arguments hops : clear implicits.

End ResolverPkg.
Export ResolverPkg.

(** ** A small store to run the definitions on

    Identifiers in their string form, with a decoder that knows the [Qm]
    form, the [z] form and base 16 in both cases ([f] and [F]); the canonical
    string of a base 16 identifier is the lower-case one. Nodes carry a link
    table and named data fields, and the store is a list of nodes. *)

Module Sample.

Definition Cid : Type := string.

Definition is_digit (c : ascii) : bool :=
  let n := nat_of_ascii c in Nat.leb 48 n && Nat.leb n 57.
Definition is_upper (c : ascii) : bool :=
  let n := nat_of_ascii c in Nat.leb 65 n && Nat.leb n 90.
Definition is_lower (c : ascii) : bool :=
  let n := nat_of_ascii c in Nat.leb 97 n && Nat.leb n 122.
Definition is_alnum (c : ascii) : bool := is_digit c || is_upper c || is_lower c.
Definition is_hex_lower (c : ascii) : bool :=
  let n := nat_of_ascii c in is_digit c || (Nat.leb 97 n && Nat.leb n 102).
Definition is_hex_upper (c : ascii) : bool :=
  let n := nat_of_ascii c in is_digit c || (Nat.leb 65 n && Nat.leb n 70).

Fixpoint all_chars (f : ascii -> bool) (s : string) : bool :=
  match s with
  | EmptyString => true
  | String c s' => f c && all_chars f s'
  end.

Definition to_lower (c : ascii) : ascii :=
  if is_upper c then ascii_of_nat (nat_of_ascii c + 32) else c.

Fixpoint map_chars (f : ascii -> ascii) (s : string) : string :=
  match s with
  | EmptyString => EmptyString
  | String c s' => String (f c) (map_chars f s')
  end.

Definition decode (s : string) : error Cid + Cid :=
  match s with
  | String "Q" (String "m" rest) =>
      if negb (is_empty rest) && all_chars is_alnum rest then inr s
      else inl (ErrForeign "invalid cid")
  | String "z" rest =>
      if negb (is_empty rest) && all_chars is_alnum rest then inr s
      else inl (ErrForeign "invalid cid")
  | String "f" rest =>
      if negb (is_empty rest) && all_chars is_hex_lower rest then inr s
      else inl (ErrForeign "invalid cid")
  | String "F" rest =>
      if negb (is_empty rest) && all_chars is_hex_upper rest
      then inr (String "f" (map_chars to_lower rest))
      else inl (ErrForeign "invalid cid")
  | _ => inl (ErrForeign "invalid cid")
  end.

#[export] Instance codec : CidCodec Cid :=
  {| Decode := decode; CidString := fun c => c |}.

Record Node : Type := mkNode {
  ncid : Cid;
  nlinks : list (string * Cid);
  nfields : list string
}.

Fixpoint find_link (name : string) (links : list (string * Cid)) : option Cid :=
  match links with
  | [] => None
  | (n, c) :: rest => if String.eqb n name then Some c else find_link name rest
  end.

Definition has_field (name : string) (fields : list string) : bool :=
  existsb (String.eqb name) fields.

Definition resolve_link (nd : Node) (names : list string)
  : option (Link Cid) * list string * option (error Cid) :=
  match names with
  | [] => (None, [], Some (ErrForeign "end of path, no more links to resolve"))
  | name :: rest =>
      match find_link name (nlinks nd) with
      | Some c => (Some (mkLink name 0%N c), rest, None)
      | None =>
          if has_field name (nfields nd)
          then (None, [], Some (ErrForeign "non-link found at given path"))
          else (None, [], Some ErrLinkNotFound)
      end
  end.

Definition resolve (nd : Node) (names : list string)
  : Value Cid * list string * option (error Cid) :=
  match names with
  | [] => (VOther "", [], None)
  | name :: rest =>
      match find_link name (nlinks nd) with
      | Some c => (VLink (mkLink name 0%N c), rest, None)
      | None =>
          if has_field name (nfields nd)
          then (VOther name, rest, None)
          else (VOther "", [], Some (ErrForeign "no such link found"))
      end
  end.

#[export] Instance node_ops : DagNode Cid Node :=
  {| NodeCid := ncid; ResolveLink := resolve_link; Resolve := resolve |}.

(** A context is its time left, in nanoseconds, if it has a deadline. *)
Definition Ctx : Type := option Z.

#[export] Instance ctx_ops : Context Ctx :=
  {| WithTimeout := fun ctx d =>
       match ctx with
       | None => Some d
       | Some t => Some (Z.min t d)
       end |}.

Definition background : Ctx := None.

Fixpoint find_node (c : Cid) (store : list Node) : error Cid + Node :=
  match store with
  | [] => inl (ErrForeign "not found")
  | nd :: rest => if String.eqb (ncid nd) c then inr nd else find_node c rest
  end.

Definition dagService (store : list Node) : NodeGetter Ctx Cid Node :=
  {| Get := fun _ c => find_node c store |}.

(** The graph of the resolver test: [R] links to [N1] as [child], [N1] to [N2]
    as [grandchild]; [N2] holds a data field [foo]. *)
Definition idR : Cid := "QmdfTbBqBPQ7VNxZEYEj14VmRuZBkqFbiwReogJgS1zR1n".
Definition idN1 : Cid := "QmN1".
Definition idN2 : Cid := "QmN2".
Definition N2 : Node := mkNode idN2 [] ["foo"].
Definition N1 : Node := mkNode idN1 [("grandchild", idN2)] [].
Definition R : Node := mkNode idR [("child", idN1)] [].
Definition store : list Node := [R; N1; N2].
Definition basic : Resolver Ctx Cid Node := NewBasicResolver (dagService store).

(** The path of the resolver test. *)
Definition testPath : Path :=
  "/dms3fs/QmdfTbBqBPQ7VNxZEYEj14VmRuZBkqFbiwReogJgS1zR1n/child/grandchild".

(** A second graph, with a link whose name is [..]: [Rd] links to [M1] as
    [a], and [M1] links to [M2] as [..]. *)
Definition idM1 : Cid := "QmM1".
Definition idM2 : Cid := "QmM2".
Definition M2 : Node := mkNode idM2 [] [].
Definition M1 : Node := mkNode idM1 [("..", idM2)] [].
Definition Rd : Node := mkNode idR [("a", idM1)] [].
Definition dotStore : list Node := [Rd; M1; M2].

End Sample.

(** * Properties *)

(** ** Splitting, joining and cleaning *)

Example Clean_ex1 : Clean "abc//def//ghi" = "abc/def/ghi". Proof. reflexivity. Qed.
Example Clean_ex2 : Clean "abc/def/../ghi/../jkl" = "abc/jkl". Proof. reflexivity. Qed.
Example Clean_ex3 : Clean "/../abc" = "/abc". Proof. reflexivity. Qed.
Example Clean_ex4 : Clean "abc/../../././../def" = "../../def". Proof. reflexivity. Qed.
Example Clean_ex5 : Clean "" = ".". Proof. reflexivity. Qed.
Example Clean_ex6 : Clean "///" = "/". Proof. reflexivity. Qed.
Example Clean_ex7 : Clean "abc/./../def" = "def". Proof. reflexivity. Qed.
Example Clean_ex8 : Clean "../../abc/" = "../../abc". Proof. reflexivity. Qed.
Example Clean_ex9 : Clean "abc/def/../../.." = "..". Proof. reflexivity. Qed.
Example Clean_ex10 : Clean "/abc/def/../../.." = "/". Proof. reflexivity. Qed.
Example Clean_ex11 : Clean "abc/.." = ".". Proof. reflexivity. Qed.
Example Clean_ex12 : Clean "/abc/./def/" = "/abc/def". Proof. reflexivity. Qed.

Lemma Split_not_nil (s : string) : Split s <> [].
Proof.
  destruct s as [|c s]; simpl; [discriminate|].
  destruct (Ascii.eqb c "/"); [discriminate|].
  destruct (Split s); discriminate.
Qed.

Lemma Split_length (s : string) : 1 <= List.length (Split s).
Proof.
  pose proof (Split_not_nil s). destruct (Split s); [congruence | simpl; lia].
Qed.

Lemma Split_only_empty (s : string) : Split s = [""] -> s = "".
Proof.
  destruct s as [|c s]; simpl; [reflexivity|].
  destruct (Ascii.eqb c "/").
  - intros E. injection E as E. now apply Split_not_nil in E.
  - destruct (Split s); discriminate.
Qed.

Lemma Split_cons_slash (s : string) : Split (String "/" s) = "" :: Split s.
Proof. reflexivity. Qed.

Lemma no_slash_cons (c : ascii) (s : string) :
  no_slash (String c s) <-> Ascii.eqb c "/" = false /\ no_slash s.
Proof.
  unfold no_slash; simpl. destruct (Ascii.eqb c "/") eqn:E.
  - split; [discriminate | intros [? _]; discriminate].
  - pose proof (Split_not_nil s) as Hn.
    destruct (Split s) as [|h t]; [congruence|].
    split.
    + intros E'. injection E' as -> ->. auto.
    + intros [_ E']. injection E' as -> ->. reflexivity.
Qed.

Lemma Split_elems_no_slash (s e : string) : In e (Split s) -> no_slash e.
Proof.
  revert e. induction s as [|c s IH]; simpl; intros e.
  - intros [<- | []]. reflexivity.
  - destruct (Ascii.eqb c "/") eqn:E.
    + intros [<- | Hin]; [reflexivity | auto].
    + pose proof (Split_not_nil s) as Hn.
      destruct (Split s) as [|h t]; [congruence|].
      intros [<- | Hin].
      * apply no_slash_cons. split; [assumption|]. apply IH. now left.
      * apply IH. now right.
Qed.

Lemma Split_app_slash (e s : string) :
  no_slash e -> Split (e ++ String "/" s) = e :: Split s.
Proof.
  induction e as [|c e IH]; intros He; [reflexivity|].
  apply no_slash_cons in He as [Hc He].
  simpl. rewrite Hc, (IH He). reflexivity.
Qed.

Lemma Split_Join (l : list string) :
  Forall no_slash l -> l <> [] -> Split (Join l) = l.
Proof.
  induction l as [|e l IH]; intros Hl Hne; [congruence|].
  inversion Hl as [|? ? He Hl']; subst.
  destruct l as [|e' l].
  - exact He.
  - change (Join (e :: e' :: l)) with (e ++ String "/" (Join (e' :: l))).
    rewrite (Split_app_slash _ He), IH; [reflexivity | assumption | discriminate].
Qed.

Lemma Clean_not_empty_buf (is_rooted : bool) (l : list string) (out : lazybuf) :
  Forall (fun e => e <> "") (elems out) ->
  Forall (fun e => e <> "") (elems (fold_left (clean_step is_rooted) l out)).
Proof.
  revert out. induction l as [|e l IH]; intros out Hout; [exact Hout|].
  simpl. apply IH. unfold clean_step.
  destruct (String.eqb_spec e ""); [assumption|].
  destruct (String.eqb e "."); [assumption|].
  destruct (String.eqb e "..").
  - destruct (Nat.ltb (dotdot out) (List.length (elems out))); simpl.
    + destruct (elems out); [constructor | now inversion Hout].
    + destruct is_rooted; [assumption|]. simpl. constructor; [discriminate | assumption].
  - simpl. constructor; assumption.
Qed.

Lemma Join_not_empty (l : list string) :
  Forall (fun e => e <> "") l -> l <> [] -> Join l <> "".
Proof.
  destruct l as [|e l]; intros Hl Hne; [congruence|].
  inversion Hl as [|? ? He _]; subst.
  destruct l; simpl; [assumption|].
  destruct e; [congruence | discriminate].
Qed.

Lemma Clean_not_empty (path : string) : Clean path <> "".
Proof.
  unfold Clean. destruct (is_empty path); [discriminate|].
  destruct (rooted path); [discriminate|].
  set (out := fold_left _ _ _).
  destruct (Nat.eqb_spec (List.length (elems out)) 0) as [E|E]; [discriminate|].
  apply Join_not_empty.
  - apply Forall_rev. apply Clean_not_empty_buf. constructor.
  - intros E'. apply E. rewrite <- (length_rev (elems out)), E'. reflexivity.
Qed.

Section PathFacts.

Context {Cid : Type} `{CidCodec Cid}.

Lemma Segments_not_nil (p : Path) : Segments p <> [].
Proof.
  unfold Segments.
  pose proof (Split_not_nil (Clean p)) as Hn.
  pose proof (@Split_only_empty (Clean p)) as H1.
  destruct (Split (Clean p)) as [|s0 rest]; [congruence|].
  destruct s0 as [|c s0]; simpl; [|discriminate].
  intros ->. now apply (Clean_not_empty p), H1.
Qed.

(** C10. For every string, [Segments] returns a non-empty sequence, as
    [Clean] never returns the empty string and [Split] never an empty slice;
    so the read of [parts[0]] in [SplitAbsPath] is never out of range. *)
Theorem Segments_nonempty_SplitAbsPath_safe (p : Path) :
  Clean p <> "" /\ 1 <= List.length (Segments p) /\ SplitAbsPath p <> None.
Proof.
  pose proof (Segments_not_nil p) as Hn.
  split; [apply Clean_not_empty|]. split.
  - destruct (Segments p); [congruence | simpl; lia].
  - unfold SplitAbsPath. destruct (Segments p) as [|p0 rest]; [congruence|].
    destruct (String.eqb p0 "dms3fs" || String.eqb p0 "dms3ld").
    + destruct rest; [discriminate|]. destruct (Decode s); discriminate.
    + destruct (Decode p0); discriminate.
Qed.

End PathFacts.

(** ** Cleaning rooted paths *)

Lemma plain_no_slash (e : string) : plain e -> no_slash e.
Proof. now intros (_ & _ & _ & He). Qed.

Lemma clean_step_plain (is_rooted : bool) (out : lazybuf) (e : string) :
  plain e -> clean_step is_rooted out e = mkbuf (e :: elems out) (dotdot out).
Proof.
  intros (H1 & H2 & H3 & _). unfold clean_step.
  apply String.eqb_neq in H1, H2, H3. now rewrite H1, H2, H3.
Qed.

Lemma clean_fold_plain (is_rooted : bool) (l acc : list string) (d : nat) :
  Forall plain l ->
  fold_left (clean_step is_rooted) l (mkbuf acc d) = mkbuf (rev l ++ acc)%list d.
Proof.
  revert acc. induction l as [|e l IH]; intros acc Hl; [reflexivity|].
  inversion Hl as [|? ? He Hl']; subst. simpl.
  rewrite (clean_step_plain _ _ He). simpl. rewrite (IH _ Hl'), <- app_assoc.
  reflexivity.
Qed.

Lemma clean_fold_rooted (l : list string) (out : lazybuf) :
  Forall no_slash l -> Forall plain (elems out) ->
  Forall plain (elems (fold_left (clean_step true) l out)).
Proof.
  revert out. induction l as [|e l IH]; intros out Hl Hout; [exact Hout|].
  inversion Hl as [|? ? He Hl']; subst. simpl. apply IH; [assumption|].
  unfold clean_step.
  destruct (String.eqb_spec e ""); [assumption|].
  destruct (String.eqb_spec e "."); [assumption|].
  destruct (String.eqb_spec e "..").
  - destruct (Nat.ltb (dotdot out) (List.length (elems out))); [|assumption].
    simpl. destruct (elems out); [constructor | now inversion Hout].
  - simpl. constructor; [|assumption]. repeat split; assumption.
Qed.

Lemma rooted_String (p : string) : rooted p = true -> exists s, p = String "/" s.
Proof.
  destruct p as [|c s]; simpl; [discriminate|].
  intros E. apply Ascii.eqb_eq in E. subst. eauto.
Qed.

Lemma Split_all_no_slash (s : string) : Forall no_slash (Split s).
Proof. apply Forall_forall. intros e. apply Split_elems_no_slash. Qed.

(** A rooted path cleans to a slash followed by plain elements. *)
Lemma Clean_rooted (p : string) :
  rooted p = true ->
  exists els, Forall plain els /\ Clean p = "/" ++ Join els.
Proof.
  intros Hr. unfold Clean. rewrite Hr.
  destruct (rooted_String _ Hr) as [s ->]. simpl is_empty. cbv iota.
  eexists. split; [|reflexivity].
  apply Forall_rev, clean_fold_rooted; [apply Split_all_no_slash | constructor].
Qed.

Lemma Clean_root_Join (els : list string) :
  Forall plain els -> Clean ("/" ++ Join els) = "/" ++ Join els.
Proof.
  intros Hels. destruct els as [|e els]; [reflexivity|].
  change ("/" ++ Join (e :: els)) with (String "/" (Join (e :: els))).
  unfold Clean. simpl is_empty. simpl rooted. cbv iota.
  rewrite Split_cons_slash, Split_Join; [| |discriminate].
  - change (fold_left (clean_step true) ("" :: e :: els) (mkbuf [] 0))
      with (fold_left (clean_step true) (e :: els) (mkbuf [] 0)).
    rewrite (clean_fold_plain true [] 0 Hels). simpl elems.
    rewrite app_nil_r. change (rev els ++ [e])%list with (rev (e :: els)).
    now rewrite rev_involutive.
  - eapply Forall_impl; [|exact Hels]. apply plain_no_slash.
Qed.

Section CleanSegments.

Context {Cid : Type} `{CidCodec Cid}.

Lemma Segments_of_Clean (p : Path) (els : list string) :
  Forall plain els -> Clean p = "/" ++ Join els ->
  Segments p = match els with [] => [""] | _ => els end.
Proof.
  intros Hels E. unfold Segments. rewrite E.
  change ("/" ++ Join els) with (String "/" (Join els)).
  rewrite Split_cons_slash. simpl.
  destruct els as [|e els]; [reflexivity|].
  apply Split_Join; [|discriminate].
  eapply Forall_impl; [|exact Hels]. apply plain_no_slash.
Qed.

Lemma Segments_root_Join (els : list string) :
  Forall plain els -> els <> [] -> Segments ("/" ++ Join els) = els.
Proof.
  intros Hels Hne.
  rewrite (Segments_of_Clean ("/" ++ Join els) Hels (Clean_root_Join Hels)).
  destruct els; congruence.
Qed.

End CleanSegments.

(** ** Parsing *)

Section ParseFacts.

Context {Cid : Type} `{CidCodec Cid}.

Lemma ParseCidToPath_ok (txt : string) (c : Cid) :
  txt <> "" -> Decode txt = inr c -> ParseCidToPath txt = inr (FromCid c).
Proof.
  intros Hne Hd. unfold ParseCidToPath.
  apply String.eqb_neq in Hne. now rewrite Hne, Hd.
Qed.

Lemma ParseCidToPath_inv (txt : string) (kp : Path) :
  ParseCidToPath txt = inr kp ->
  txt <> "" /\ exists c, Decode txt = inr c /\ kp = FromCid c.
Proof.
  unfold ParseCidToPath. destruct (String.eqb_spec txt ""); [discriminate|].
  destruct (Decode txt) as [e|c]; [discriminate|].
  intros E. injection E as <-. eauto.
Qed.

(** [ParsePath] on a text that starts with a slash: the first part is empty,
    so the namespace tag is looked for. *)
Lemma ParsePath_slash (s : string) :
  ParsePath (String "/" s) =
  match Split s with
  | p1 :: p2 :: _ =>
      if String.eqb p1 "dms3fs" then
        match ParseCidToPath p2 with
        | inl err => inl err
        | inr _ => inr (String "/" s)
        end
      else if negb (String.eqb p1 "dms3ns") && negb (String.eqb p1 "dms3ld")
      then inl ErrBadPath
      else inr (String "/" s)
  | _ => inl ErrBadPath
  end.
Proof.
  unfold ParsePath. rewrite Split_cons_slash.
  pose proof (Split_not_nil s) as Hn.
  destruct (Split s) as [|p1 [|p2 t]]; [congruence| reflexivity | reflexivity].
Qed.

Lemma ParsePath_slash_inv (s : string) (p : Path) :
  ParsePath (String "/" s) = inr p ->
  p = String "/" s /\
  exists p1 p2 t, Split s = p1 :: p2 :: t /\
    ((p1 = "dms3fs" /\ exists c, Decode p2 = inr c /\ p2 <> "")
     \/ p1 = "dms3ns" \/ p1 = "dms3ld").
Proof.
  rewrite ParsePath_slash.
  destruct (Split s) as [|p1 [|p2 t]]; [discriminate | discriminate |].
  destruct (String.eqb_spec p1 "dms3fs") as [->|N1].
  - destruct (ParseCidToPath p2) as [e|kp] eqn:E; [discriminate|].
    intros E'. injection E' as <-. split; [reflexivity|].
    destruct (ParseCidToPath_inv _ E) as (Hne & c & Hd & _).
    exists "dms3fs", p2, t. split; [reflexivity|]. left. eauto.
  - destruct (String.eqb_spec p1 "dms3ns") as [->|N2]; simpl.
    + intros E'. injection E' as <-. split; [reflexivity|].
      exists "dms3ns", p2, t. auto.
    + destruct (String.eqb_spec p1 "dms3ld") as [->|N3]; simpl; [|discriminate].
      intros E'. injection E' as <-. split; [reflexivity|].
      exists "dms3ld", p2, t. auto.
Qed.

Lemma Split_hd_empty (s : string) :
  nth 0 (Split s) "" = "" -> s = "" \/ rooted s = true.
Proof.
  destruct s as [|c s]; simpl; [auto|].
  destruct (Ascii.eqb c "/"); [auto|].
  pose proof (Split_not_nil s). destruct (Split s); [congruence | discriminate].
Qed.


(** C5 (amended). [ParsePath] fails with [ErrBadPath] on the empty string, on
    [dms3fs/] (the tag is no identifier) and on a slash followed by a bare
    identifier; on [/dms3fs/], where the identifier after the tag is empty,
    it fails with [ErrNoComponents], the error of [ParseCidToPath]. *)
Theorem ParsePath_rejects (bareId : string) (e : error Cid) :
  Decode "dms3fs" = inl e ->
  no_slash bareId ->
  ParsePath "" = inl ErrBadPath
  /\ ParsePath "/dms3fs/" = inl ErrNoComponents
  /\ ParsePath "dms3fs/" = inl ErrBadPath
  /\ ParsePath ("/" ++ bareId) = inl ErrBadPath.
Proof.
  intros Hd Hb. repeat split.
  - unfold ParsePath, ParseCidToPath. simpl. now rewrite Hd.
  - change ("/" ++ bareId) with (String "/" bareId).
    rewrite ParsePath_slash. unfold no_slash in Hb. now rewrite Hb.
Qed.

(** C6 (amended). A bare identifier that decodes parses to the path built
    from the decoded identifier, [/dms3fs/] followed by its canonical string;
    the segments of that path are the tag and the canonical string. The text
    [/dms3fs/id] parses to itself. So both parse to the same path, with the
    segments [dms3fs] and [id], when [id] is the canonical string of the
    identifier it decodes to. *)
Theorem ParsePath_bare_identifier (id : string) (c : Cid) :
  id <> "" -> no_slash id -> Decode id = inr c ->
  ParsePath id = inr (FromCid c)
  /\ ParsePath ("/dms3fs/" ++ id) = inr ("/dms3fs/" ++ id)
  /\ (plain (CidString c) -> Segments (FromCid c) = ["dms3fs"; CidString c])
  /\ (CidString c = id ->
      ParsePath id = ParsePath ("/dms3fs/" ++ id)
      /\ (plain id -> Segments (FromCid c) = ["dms3fs"; id])).
Proof.
  intros Hne Hns Hd.
  assert (P1 : ParsePath id = inr (FromCid c)).
  { unfold ParsePath. unfold no_slash in Hns. rewrite Hns. simpl.
    now rewrite (ParseCidToPath_ok Hne Hd). }
  assert (P2 : ParsePath ("/dms3fs/" ++ id) = inr ("/dms3fs/" ++ id)).
  { change ("/dms3fs/" ++ id) with (String "/" ("dms3fs" ++ String "/" id)).
    rewrite ParsePath_slash, Split_app_slash by reflexivity.
    unfold no_slash in Hns. rewrite Hns. simpl.
    now rewrite (ParseCidToPath_ok Hne Hd). }
  assert (P3 : plain (CidString c) -> Segments (FromCid c) = ["dms3fs"; CidString c]).
  { intros Hp.
    change (FromCid c) with ("/" ++ Join ["dms3fs"; CidString c]).
    apply Segments_root_Join; [|discriminate].
    constructor; [|constructor; [assumption | constructor]].
    repeat split; try discriminate. }
  split; [exact P1|]. split; [exact P2|]. split; [exact P3|].
  intros Hcanon. split.
  - rewrite P1, P2. unfold FromCid. now rewrite Hcanon.
  - intros Hp. rewrite <- Hcanon in Hp. rewrite (P3 Hp). now rewrite Hcanon.
Qed.

End ParseFacts.

(** ** Popping the last segment *)



Lemma last_cons_default {A} (l : list A) (a d : A) : last (a :: l) d = last l a.
Proof.
  revert a d. induction l as [|b l IH]; intros a d; [reflexivity|].
  change (last (a :: b :: l) d) with (last (b :: l) d).
  now rewrite !IH.
Qed.

Section PopFacts.

Context {Cid : Type} `{CidCodec Cid}.



End PopFacts.

(** ** The strict walk *)

Section WalkFacts.

Context {Ctx Cid Node : Type}.
Context `{CidCodec Cid} `{DagNode Cid Node} `{Context Ctx}.

Implicit Types (r : Resolver Ctx Cid Node) (ds : NodeGetter Ctx Cid Node).
Implicit Types (ctx : Ctx) (nd ndd root : Node) (names : list string).
Implicit Types (fetched : list Cid) (nodes result : list Node).

Lemma ResolveLinks_loop_done fuel r ctx nd result fetched :
  ResolveLinks_loop fuel r ctx nd [] result fetched = Ret (result, None) fetched.
Proof. destruct fuel; reflexivity. Qed.

Lemma ResolveLinks_loop_hop fuel r ctx nd name names result fetched
      l rest fetched1 next :
  ResolveOnce r (WithTimeout ctx Minute) (DAG r) nd (name :: names) fetched
    = Ret (Some l, rest, None) fetched1 ->
  Get (DAG r) (WithTimeout ctx Minute) (LinkCid l) = inr next ->
  ResolveLinks_loop (S fuel) r ctx nd (name :: names) result fetched
  = ResolveLinks_loop fuel r (WithTimeout ctx Minute) next rest
      (result ++ [next])%list (fetched1 ++ [LinkCid l])%list.
Proof.
  intros Hro Hget. simpl. unfold bind. rewrite Hro.
  unfold GetNode, DAGGet. now rewrite Hget.
Qed.

Lemma ResolveLinks_loop_error fuel r ctx nd name names result fetched
      lnk rest e fetched1 :
  ResolveOnce r (WithTimeout ctx Minute) (DAG r) nd (name :: names) fetched
    = Ret (lnk, rest, Some e) fetched1 ->
  ResolveLinks_loop (S fuel) r ctx nd (name :: names) result fetched
  = Ret (result,
         Some (if is_ErrLinkNotFound e then ErrNoLink name (NodeCid nd) else e))
        fetched1.
Proof.
  intros Hro. simpl. unfold bind. rewrite Hro.
  destruct (is_ErrLinkNotFound e); reflexivity.
Qed.

(** The loop follows the successful hops. *)
Lemma ResolveLinks_loop_walks r ctx nd names fetched nodes ctx' nd' names' fetched' :
  walks r ctx nd names fetched nodes ctx' nd' names' fetched' ->
  forall fuel result,
    ResolveLinks_loop (List.length nodes + fuel) r ctx nd names result fetched
    = ResolveLinks_loop fuel r ctx' nd' names' (result ++ nodes)%list fetched'.
Proof.
  induction 1 as [|ctx nd name names fetched l rest fetched1 next nodes
                   ctx' nd' names' fetched' Hro Hget _ IH];
    intros fuel result.
  - now rewrite app_nil_r.
  - simpl List.length. simpl Nat.add.
    erewrite ResolveLinks_loop_hop; [|exact Hro|exact Hget].
    rewrite IH, <- app_assoc. reflexivity.
Qed.

Lemma chain_length ds ctx nd names nodes :
  chain ds ctx nd names nodes -> List.length nodes = List.length names.
Proof. induction 1; simpl; congruence. Qed.

(** A chain is a sequence of successful hops of the basic resolver that
    uses up the names. *)
Lemma chain_walks ds ctx nd names nodes :
  chain ds ctx nd names nodes ->
  forall fetched, exists ctx' fetched',
    walks (NewBasicResolver ds) ctx nd names fetched nodes
          ctx' (last nodes nd) [] fetched'.
Proof.
  induction 1 as [ctx nd | ctx nd name names l next nodes Hrl Hget _ IH];
    intros fetched.
  - exists ctx, fetched. constructor.
  - destruct (IH (fetched ++ [LinkCid l])%list) as (ctx' & fetched' & Hw).
    exists ctx', fetched'.
    rewrite last_cons_default.
    eapply walks_hop; [|exact Hget|exact Hw].
    simpl. unfold ResolveSingle, ret. now rewrite Hrl.
Qed.

Lemma ResolveLinks_loop_prefix fuel r : forall ctx nd names result fetched nodes err fetched',
  ResolveLinks_loop fuel r ctx nd names result fetched = Ret (nodes, err) fetched' ->
  exists more, nodes = (result ++ more)%list.
Proof.
  induction fuel as [|fuel IH]; intros ctx nd names result fetched nodes err fetched'.
  - destruct names; simpl; [|discriminate].
    intros E. injection E as <- _ _. exists []. now rewrite app_nil_r.
  - destruct names as [|name names]; simpl.
    + intros E. injection E as <- _ _. exists []. now rewrite app_nil_r.
    + unfold bind.
      destruct (ResolveOnce r _ _ nd (name :: names) fetched)
        as [[[lnk rest] e] fetched1| |]; [|discriminate|discriminate].
      destruct e as [e|].
      * destruct (is_ErrLinkNotFound e); intros E; injection E as <- _ _;
          exists []; now rewrite app_nil_r.
      * destruct lnk as [l|]; [|discriminate].
        unfold GetNode, DAGGet.
        destruct (Get (DAG r) _ (LinkCid l)) as [e|next].
        -- intros E; injection E as <- _ _. exists []. now rewrite app_nil_r.
        -- intros E. apply IH in E as [more ->].
           exists (next :: more). now rewrite <- app_assoc.
Qed.

(** C9. Whatever way [ResolveLinks] returns (names used up, no such link,
    another failure of a hop, a failed fetch), the node sequence it returns
    starts with the root node it was given; so it is not empty. *)
Theorem ResolveLinks_starts_with_root fuel r ctx ndd names fetched nodes err fetched' :
  ResolveLinks fuel r ctx ndd names fetched = Ret (nodes, err) fetched' ->
  nodes <> [] /\ hd_error nodes = Some ndd /\ exists more, nodes = ndd :: more.
Proof.
  unfold ResolveLinks. intros E.
  apply ResolveLinks_loop_prefix in E as [more ->].
  split; [discriminate|]. split; [reflexivity|]. now exists more.
Qed.

(** C2. When, at a cursor node reached from the root by successful hops,
    the single-hop resolver answers with merkledag's link-not-found error for
    the names left, [ResolveLinks] stops there: it returns the nodes walked so
    far, from the root to the cursor, with [ErrNoLink] naming the first of
    the names left and the identifier of the cursor node. *)
Theorem ResolveLinks_no_link fuel r ctx ndd names fetched nodes
        ctx' nd name rest fetched1 lnk rest' fetched2 :
  walks r ctx ndd names fetched nodes ctx' nd (name :: rest) fetched1 ->
  ResolveOnce r (WithTimeout ctx' Minute) (DAG r) nd (name :: rest) fetched1
    = Ret (lnk, rest', Some ErrLinkNotFound) fetched2 ->
  List.length nodes < fuel ->
  ResolveLinks fuel r ctx ndd names fetched
  = Ret (ndd :: nodes, Some (ErrNoLink name (NodeCid nd))) fetched2.
Proof.
  intros Hw Hro Hfuel. unfold ResolveLinks.
  replace fuel with (List.length nodes + S (fuel - S (List.length nodes))) by lia.
  rewrite (ResolveLinks_loop_walks Hw).
  erewrite ResolveLinks_loop_error by exact Hro. reflexivity.
Qed.

End WalkFacts.

(** ** Paths built from an identifier and link names *)

Section FullPath.

Context {Cid : Type} `{CidCodec Cid}.

(** The path of an identifier followed by link names, as [FromSegments]
    builds it under the [/dms3fs/] prefix: it is valid and splits into the
    identifier and the names. *)
Lemma FromSegments_splits (h : Cid) (names : list string) :
  Decode (CidString h) = inr h -> plain (CidString h) -> Forall plain names ->
  let fpath := "/" ++ Join ("dms3fs" :: CidString h :: names) in
  FromSegments "/dms3fs/" (CidString h :: names) = inr fpath
  /\ IsValid fpath = None
  /\ SplitAbsPath fpath = Some (inr (h, names)).
Proof.
  intros Hd Hp Hnames fpath.
  assert (Hall : Forall plain ("dms3fs" :: CidString h :: names)).
  { constructor; [repeat split; discriminate|]. now constructor. }
  assert (Hns : Forall no_slash ("dms3fs" :: CidString h :: names)).
  { eapply Forall_impl; [|exact Hall]. apply plain_no_slash. }
  assert (Hparse : ParsePath fpath = inr fpath).
  { unfold fpath.
    change ("/" ++ Join ("dms3fs" :: CidString h :: names))
      with (String "/" (Join ("dms3fs" :: CidString h :: names))).
    rewrite ParsePath_slash, Split_Join by (assumption || discriminate).
    simpl String.eqb. cbv iota.
    destruct Hp as (Hne & _). now rewrite (ParseCidToPath_ok Hne Hd). }
  split; [exact Hparse|]. split.
  - unfold IsValid, PathString. now rewrite Hparse.
  - unfold SplitAbsPath, fpath.
    rewrite Segments_root_Join by (assumption || discriminate).
    simpl. now rewrite Hd.
Qed.

End FullPath.

(** ** Resolving a chain *)

Lemma rev_last_cons {A} (l : list A) (a d : A) :
  exists front, rev (a :: l) = last l a :: front.
Proof.
  exists (rev (removelast (a :: l))).
  rewrite (app_removelast_last d (l := a :: l)) at 1 by discriminate.
  now rewrite rev_unit, last_cons_default.
Qed.

Section ChainFacts.

Context {Ctx Cid Node : Type}.
Context `{CidCodec Cid} `{DagNode Cid Node} `{Context Ctx}.

Implicit Types (r : Resolver Ctx Cid Node) (ds : NodeGetter Ctx Cid Node).
Implicit Types (ctx : Ctx) (nd ndd root : Node) (names : list string).
Implicit Types (fetched : list Cid) (nodes result : list Node).

Lemma chain_run ds ctx root names nodes fuel fetched :
  chain ds ctx root names nodes -> List.length names <= fuel ->
  exists fetched',
    ResolveLinks fuel (NewBasicResolver ds) ctx root names fetched
    = Ret (root :: nodes, None) fetched'.
Proof.
  intros Hc Hfuel.
  destruct (chain_walks Hc fetched) as (ctx' & fetched' & Hw).
  exists fetched'. unfold ResolveLinks.
  rewrite <- (chain_length Hc) in Hfuel.
  replace fuel with (List.length nodes + (fuel - List.length nodes)) by lia.
  rewrite (ResolveLinks_loop_walks Hw).
  now rewrite ResolveLinks_loop_done.
Qed.

(** C1 (amended). Let [root; N1; ...; Nk] be a chain: each node has a link
    to the next under the matching name, and the store holds the nodes. Then
    [ResolveLinks] with the basic single-hop resolver, given enough fuel for
    the names, returns exactly [root; N1; ...; Nk] and no error; the sequence
    has one node more than there are names. [ResolvePath], on a valid path
    that splits into the identifier of the root and these names, returns the
    last node [Nk]; the path [FromSegments] builds from the identifier and
    the names is such a path when the string of the identifier decodes to
    it and that string and every name are plain segments (not empty, without
    a slash, neither [.] nor [..]). *)
Theorem ResolveLinks_chain ds ctx root names nodes fuel fetched :
  chain ds ctx root names nodes -> List.length names <= fuel ->
  (exists fetched',
     ResolveLinks fuel (NewBasicResolver ds) ctx root names fetched
     = Ret (root :: nodes, None) fetched')
  /\ List.length (root :: nodes) = S (List.length names)
  /\ (forall fpath h,
        IsValid fpath = None ->
        SplitAbsPath fpath = Some (inr (h, names)) ->
        Get ds ctx h = inr root ->
        exists fetched',
          ResolvePath fuel (NewBasicResolver ds) ctx fpath fetched
          = Ret (Some (last nodes root), None) fetched')
  /\ (forall h,
        Decode (CidString h) = inr h -> plain (CidString h) ->
        Forall plain names -> Get ds ctx h = inr root ->
        exists fpath fetched',
          FromSegments "/dms3fs/" (CidString h :: names) = inr fpath
          /\ ResolvePath fuel (NewBasicResolver ds) ctx fpath fetched
             = Ret (Some (last nodes root), None) fetched').
Proof.
  intros Hc Hfuel.
  assert (Hpath : forall fpath h,
        IsValid fpath = None ->
        SplitAbsPath fpath = Some (inr (h, names)) ->
        Get ds ctx h = inr root ->
        exists fetched',
          ResolvePath fuel (NewBasicResolver ds) ctx fpath fetched
          = Ret (Some (last nodes root), None) fetched').
  { intros fpath h Hv Hs Hg.
    destruct (chain_run (fetched ++ [h])%list Hc Hfuel)
      as (fetched' & Hrun).
    exists fetched'. unfold ResolvePath, ResolvePathComponents, bind.
    rewrite Hv, Hs. unfold DAGGet.
    change (Get (DAG (NewBasicResolver ds)) ctx h) with (Get ds ctx h).
    rewrite Hg, Hrun. unfold ret. cbv beta iota.
    destruct (rev_last_cons nodes root root) as (front & ->). reflexivity. }
  split; [now apply chain_run|].
  split; [simpl; now rewrite (chain_length Hc)|].
  split; [exact Hpath|].
  intros h Hd Hp Hnames Hg.
  destruct (FromSegments_splits Hd Hp Hnames) as (Hfs & Hv & Hs).
  destruct (Hpath _ _ Hv Hs Hg) as (fetched' & Hrun).
  eauto.
Qed.

End ChainFacts.

(** ** Resolving to the last node *)

Section LastNodeFacts.

Context {Ctx Cid Node : Type}.
Context `{CidCodec Cid} `{DagNode Cid Node} `{Context Ctx}.

Implicit Types (r : Resolver Ctx Cid Node) (ctx : Ctx) (nd root : Node).
Implicit Types (fetched : list Cid) (p : list string).

(** A just-a-key path, when its identifier decodes, splits into that
    identifier and no link names. *)
Lemma IsJustAKey_SplitAbsPath (fpath : Path) (c : Cid) :
  IsJustAKey fpath = true ->
  Decode (nth 1 (Segments fpath) "") = inr c ->
  SplitAbsPath fpath = Some (inr (c, [])).
Proof.
  unfold IsJustAKey, SplitAbsPath.
  destruct (Segments fpath) as [|tag [|id [|x rest]]]; simpl; try discriminate.
  intros -> ->. reflexivity.
Qed.

(** C8. On a path that splits into a root identifier and no link names,
    [ResolveToLastNode] returns the root identifier, no names and no error,
    and the list of identifiers asked from the fetch service is as it was:
    the service is not called. *)
Theorem ResolveToLastNode_just_a_key fuel r ctx (fpath : Path) (c : Cid) fetched :
  SplitAbsPath fpath = Some (inr (c, [])) ->
  ResolveToLastNode fuel r ctx fpath fetched = Ret (Some c, [], None) fetched.
Proof.
  intros Hs. unfold ResolveToLastNode. now rewrite Hs.
Qed.

Lemma ResolveToLastNode_after_loop fuel r ctx (fpath : Path) (c : Cid) p0 root
      nd p fetched fetched1 :
  SplitAbsPath fpath = Some (inr (c, p0)) -> p0 <> [] ->
  Get (DAG r) ctx c = inr root ->
  ResolveToLastNode_loop fuel r ctx root p0 (fetched ++ [c])%list
    = Ret (HopsDone nd p) fetched1 ->
  ResolveToLastNode fuel r ctx fpath fetched
  = Ret (ResolveToLastNode_tail nd p) fetched1.
Proof.
  intros Hs Hp0 Hg Hloop. unfold ResolveToLastNode. rewrite Hs.
  destruct p0 as [|n0 p0]; [congruence|]. cbn [List.length Nat.eqb].
  unfold bind, DAGGet. rewrite Hg. cbv beta iota. now rewrite Hloop.
Qed.

(** C3. [ResolveToLastNode] has left its hop loop at a cursor node with
    names remaining. The cursor node's [Resolve] is asked for them, and, in
    the order of the code: if it leaves names unconsumed, the result is the
    error "path failed to resolve fully"; if it consumes them all and yields
    a link, the error "inconsistent ResolveOnce / nd.Resolve"; if it consumes
    them all and yields anything else, the identifier of the cursor node with
    the remaining names and no error. *)
Theorem ResolveToLastNode_in_node fuel r ctx (fpath : Path) (c : Cid) p0 root
        nd p fetched fetched1 :
  SplitAbsPath fpath = Some (inr (c, p0)) -> p0 <> [] ->
  Get (DAG r) ctx c = inr root ->
  ResolveToLastNode_loop fuel r ctx root p0 (fetched ++ [c])%list
    = Ret (HopsDone nd p) fetched1 ->
  p <> [] ->
  (forall repr, Resolve nd p = (VOther repr, [], None) ->
     ResolveToLastNode fuel r ctx fpath fetched
     = Ret (Some (NodeCid nd), p, None) fetched1)
  /\ (forall val rest, Resolve nd p = (val, rest, None) -> rest <> [] ->
     ResolveToLastNode fuel r ctx fpath fetched
     = Ret (None, [], Some (ErrorsNew "path failed to resolve fully")) fetched1)
  /\ (forall l, Resolve nd p = (VLink l, [], None) ->
     ResolveToLastNode fuel r ctx fpath fetched
     = Ret (None, [], Some (ErrorsNew "inconsistent ResolveOnce / nd.Resolve"))
           fetched1).
Proof.
  intros Hs Hp0 Hg Hloop Hp.
  rewrite (ResolveToLastNode_after_loop fuel r ctx fpath fetched Hs Hp0 Hg Hloop).
  unfold ResolveToLastNode_tail.
  destruct p as [|n p]; [congruence|]. cbn [List.length Nat.eqb].
  repeat split.
  - intros repr ->. reflexivity.
  - intros val rest -> Hrest. destruct rest; [congruence | reflexivity].
  - intros l ->. reflexivity.
Qed.

(** One turn of the hop loop of [ResolveToLastNode], with names left: when
    the single-hop resolver returns no link the loop is left at the same
    cursor node with the same names, whatever error came with it; an error
    that comes with a link ends the loop with that error. *)
Lemma ResolveToLastNode_loop_hop_failure fuel r ctx nd p fetched fetched1
        rest (err : option (error Cid)) :
  p <> [] ->
  (ResolveOnce r ctx (DAG r) nd p fetched = Ret (None, rest, err) fetched1 ->
   ResolveToLastNode_loop (S fuel) r ctx nd p fetched
   = Ret (HopsDone nd p) fetched1)
  /\ (forall l e,
        ResolveOnce r ctx (DAG r) nd p fetched = Ret (Some l, rest, Some e) fetched1 ->
        ResolveToLastNode_loop (S fuel) r ctx nd p fetched
        = Ret (HopsError e) fetched1).
Proof.
  intros Hp. destruct p as [|n p]; [congruence|].
  split.
  - intros Hro. simpl. unfold bind. now rewrite Hro.
  - intros l e Hro. simpl. unfold bind. now rewrite Hro.
Qed.

Lemma ResolveToLastNode_loop_follows r ctx nd p fetched nodes nd' p' fetched' :
  follows r ctx nd p fetched nodes nd' p' fetched' ->
  forall fuel,
    ResolveToLastNode_loop (List.length nodes + fuel) r ctx nd p fetched
    = ResolveToLastNode_loop fuel r ctx nd' p' fetched'.
Proof.
  induction 1 as [|nd name names fetched l rest fetched1 next nodes
                   nd' p' fetched' Hro Hget _ IH]; intros fuel; [reflexivity|].
  simpl List.length. simpl Nat.add. simpl ResolveToLastNode_loop.
  unfold bind. rewrite Hro. unfold GetNode, DAGGet. rewrite Hget. apply IH.
Qed.

(** C4 (amended). [ResolveToLastNode] has fetched the root and made some
    successful hops, and names are left at the cursor node. If the
    single-hop resolver now returns no link, then whatever error comes with
    it (link not found or any other, or none) is dropped: what the caller
    gets is decided by the cursor node's [Resolve] on the names left alone,
    namely its error if it fails, "path failed to resolve fully" if it
    leaves names, "inconsistent ResolveOnce / nd.Resolve" if it yields a
    link, and else the cursor's identifier with the names left and no
    error. An error of the single-hop resolver is returned to the caller
    only when it comes together with a link; and when the hop gives a link
    and no error but the fetch of the link fails, the error of the fetch is
    returned. *)
Theorem ResolveToLastNode_hop_failure fuel r ctx (fpath : Path) (c : Cid) p0 root
        nodes nd p fetched f1 :
  SplitAbsPath fpath = Some (inr (c, p0)) -> p0 <> [] ->
  Get (DAG r) ctx c = inr root ->
  follows r ctx root p0 (fetched ++ [c])%list nodes nd p f1 ->
  p <> [] -> List.length nodes < fuel ->
  (forall rest err f2,
     ResolveOnce r ctx (DAG r) nd p f1 = Ret (None, rest, err) f2 ->
     (forall val rest' e',
        Resolve nd p = (val, rest', Some e') ->
        ResolveToLastNode fuel r ctx fpath fetched = Ret (None, [], Some e') f2)
     /\ (forall val rest',
        Resolve nd p = (val, rest', None) -> rest' <> [] ->
        ResolveToLastNode fuel r ctx fpath fetched
        = Ret (None, [], Some (ErrorsNew "path failed to resolve fully")) f2)
     /\ (forall l,
        Resolve nd p = (VLink l, [], None) ->
        ResolveToLastNode fuel r ctx fpath fetched
        = Ret (None, [],
               Some (ErrorsNew "inconsistent ResolveOnce / nd.Resolve")) f2)
     /\ (forall repr,
        Resolve nd p = (VOther repr, [], None) ->
        ResolveToLastNode fuel r ctx fpath fetched
        = Ret (Some (NodeCid nd), p, None) f2))
  /\ (forall l rest e f2,
        ResolveOnce r ctx (DAG r) nd p f1 = Ret (Some l, rest, Some e) f2 ->
        ResolveToLastNode fuel r ctx fpath fetched = Ret (None, [], Some e) f2)
  /\ (forall l rest e f2,
        ResolveOnce r ctx (DAG r) nd p f1 = Ret (Some l, rest, None) f2 ->
        Get (DAG r) ctx (LinkCid l) = inl e ->
        ResolveToLastNode fuel r ctx fpath fetched
        = Ret (None, [], Some e) (f2 ++ [LinkCid l])%list).
Proof.
  intros Hs Hp0 Hg Hf Hp Hfuel.
  assert (Hrun : ResolveToLastNode fuel r ctx fpath fetched
                 = bind (ResolveToLastNode_loop (S (fuel - S (List.length nodes)))
                           r ctx nd p)
                     (fun h => match h with
                               | HopsError err => ret (None, [], Some err)
                               | HopsDone nd p => ret (ResolveToLastNode_tail nd p)
                               end) f1).
  { unfold ResolveToLastNode. rewrite Hs.
    destruct p0 as [|n0 p0]; [congruence|]. cbn [List.length Nat.eqb].
    unfold bind at 1. unfold DAGGet. rewrite Hg. cbv beta iota.
    unfold bind.
    replace fuel with (List.length nodes + S (fuel - S (List.length nodes)))
      at 1 by lia.
    now rewrite (ResolveToLastNode_loop_follows Hf). }
  rewrite Hrun. clear Hrun.
  destruct p as [|n p]; [congruence|].
  split; [|split].
  - intros rest err f2 Hro. simpl ResolveToLastNode_loop. unfold bind.
    rewrite Hro. unfold ret, ResolveToLastNode_tail.
    cbn [List.length Nat.eqb].
    repeat split.
    + intros val rest' e' ->. reflexivity.
    + intros val rest' -> Hrest. destruct rest'; [congruence | reflexivity].
    + intros l ->. reflexivity.
    + intros repr ->. reflexivity.
  - intros l rest e f2 Hro. simpl ResolveToLastNode_loop. unfold bind.
    now rewrite Hro.
  - intros l rest e f2 Hro Hget. simpl ResolveToLastNode_loop. unfold bind.
    rewrite Hro. unfold GetNode, DAGGet. now rewrite Hget.
Qed.

End LastNodeFacts.

(** ** The properties on the sample store *)

Import Sample.

Lemma sample_chain :
  chain (dagService store) background R ["child"; "grandchild"] [N1; N2].
Proof.
  eapply chain_cons; [reflexivity | reflexivity |].
  eapply chain_cons; [reflexivity | reflexivity |].
  apply chain_nil.
Defined.

Lemma ResolveLinks_chain_witness :
  chain (dagService store) background R ["child"; "grandchild"] [N1; N2]
  /\ 2 <= 5
  /\ (exists fetched',
        ResolveLinks 5 basic background R ["child"; "grandchild"] []
        = Ret ([R; N1; N2], None) fetched')
  /\ (exists fetched',
        ResolvePath 5 basic background testPath []
        = Ret (Some N2, None) fetched').
Proof.
  split; [exact sample_chain|]. split; [lia|].
  destruct (@ResolveLinks_chain _ _ _ _ _ _ (dagService store) background R
              ["child"; "grandchild"] [N1; N2] 5 [] sample_chain
              (le_S _ _ (le_S _ _ (le_S _ _ (le_n 2)))))
    as (Hlinks & _ & Hpath & _).
  split; [exact Hlinks|].
  apply (Hpath testPath idR); reflexivity.
Defined.

Lemma ResolveLinks_no_link_witness :
  walks basic background R ["child"; "missing"] [] [N1]
        (WithTimeout background Minute) N1 ["missing"] [idN1]
  /\ ResolveOnce basic (WithTimeout (WithTimeout background Minute) Minute)
       (DAG basic) N1 ["missing"] [idN1]
     = Ret (None, [], Some ErrLinkNotFound) [idN1]
  /\ 1 < 5
  /\ ResolveLinks 5 basic background R ["child"; "missing"] []
     = Ret ([R; N1], Some (ErrNoLink "missing" idN1)) [idN1].
Proof.
  assert (Hw : walks basic background R ["child"; "missing"] [] [N1]
                 (WithTimeout background Minute) N1 ["missing"] [idN1]).
  { eapply walks_hop with (l := mkLink "child" 0%N idN1) (fetched1 := []);
      [reflexivity | reflexivity | apply walks_refl]. }
  split; [exact Hw|]. split; [reflexivity|]. split; [lia|].
  refine (ResolveLinks_no_link (fuel := 5) (lnk := None) (rest' := [])
            (fetched2 := [idN1]) Hw _ _); [reflexivity | simpl; lia].
Defined.

Lemma ResolveToLastNode_in_node_witness :
  SplitAbsPath (Cid := Cid) (testPath ++ "/foo")
    = Some (inr (idR, ["child"; "grandchild"; "foo"]))
  /\ ["child"; "grandchild"; "foo"] <> []
  /\ Get (DAG basic) background idR = inr R
  /\ ResolveToLastNode_loop 5 basic background R ["child"; "grandchild"; "foo"]
       [idR]
     = Ret (HopsDone N2 ["foo"]) [idR; idN1; idN2]
  /\ ["foo"] <> []
  /\ Resolve N2 ["foo"] = (VOther "foo", [], None)
  /\ ResolveToLastNode 5 basic background (testPath ++ "/foo") []
     = Ret (Some idN2, ["foo"], None) [idR; idN1; idN2].
Proof.
  assert (Hp0 : ["child"; "grandchild"; "foo"] <> []) by discriminate.
  assert (Hp : ["foo"] <> []) by discriminate.
  repeat (split; [first [reflexivity | assumption]|]).
  refine (proj1 (ResolveToLastNode_in_node (c := idR) (root := R)
                   (nd := N2) (p := ["foo"]) 5 basic background
                   (testPath ++ "/foo") [] _ Hp0 _ _ Hp) "foo" _);
    reflexivity.
Defined.

Lemma ResolveToLastNode_loop_hop_failure_witness :
  ["foo"] <> []
  /\ ResolveOnce basic background (DAG basic) N2 ["foo"] [idR]
     = Ret (None, [], Some (ErrForeign "non-link found at given path")) [idR]
  /\ ResolveToLastNode_loop 1 basic background N2 ["foo"] [idR]
     = Ret (HopsDone N2 ["foo"]) [idR].
Proof.
  assert (Hp : ["foo"] <> []) by discriminate.
  split; [exact Hp|]. split; [reflexivity|].
  refine (proj1 (ResolveToLastNode_loop_hop_failure 0 basic background N2
                   [idR] [idR] []
                   (Some (ErrForeign "non-link found at given path")) Hp) _).
  reflexivity.
Defined.

Lemma ParsePath_rejects_witness :
  Decode (Cid := Cid) "dms3fs" = inl (ErrForeign "invalid cid")
  /\ no_slash idR
  /\ ParsePath (Cid := Cid) "" = inl ErrBadPath
  /\ ParsePath (Cid := Cid) "/dms3fs/" = inl ErrNoComponents
  /\ ParsePath (Cid := Cid) "dms3fs/" = inl ErrBadPath
  /\ ParsePath (Cid := Cid) ("/" ++ idR) = inl ErrBadPath.
Proof.
  split; [reflexivity|]. split; [reflexivity|].
  apply (ParsePath_rejects (Cid := Cid) (bareId := idR)
           (e := ErrForeign "invalid cid")); reflexivity.
Defined.

Lemma ParsePath_bare_identifier_witness :
  idR <> "" /\ no_slash idR /\ Decode idR = inr idR
  /\ ParsePath (Cid := Cid) idR = inr (FromCid idR)
  /\ ParsePath (Cid := Cid) ("/dms3fs/" ++ idR) = inr ("/dms3fs/" ++ idR).
Proof.
  assert (Hne : idR <> "") by discriminate.
  assert (Hns : no_slash idR) by reflexivity.
  assert (Hd : Decode idR = inr idR) by reflexivity.
  split; [exact Hne|]. split; [exact Hns|]. split; [exact Hd|].
  destruct (ParsePath_bare_identifier (Cid := Cid) (id := idR) (c := idR)
              Hne Hns Hd) as (P1 & P2 & _).
  split; [exact P1 | exact P2].
Defined.


Lemma ResolveToLastNode_just_a_key_witness :
  SplitAbsPath (Cid := Cid) ("/dms3fs/" ++ idR) = Some (inr (idR, []))
  /\ ResolveToLastNode 0 basic background ("/dms3fs/" ++ idR) []
     = Ret (Some idR, [], None) [].
Proof.
  split; [reflexivity|].
  apply (ResolveToLastNode_just_a_key (Cid := Cid) 0 basic background
           ("/dms3fs/" ++ idR) (c := idR) []).
  reflexivity.
Defined.

Lemma ResolveLinks_starts_with_root_witness :
  ResolveLinks 5 basic background R ["child"; "missing"] []
  = Ret ([R; N1], Some (ErrNoLink "missing" idN1)) [idN1]
  /\ [R; N1] <> [] /\ hd_error [R; N1] = Some R.
Proof.
  assert (Hrun : ResolveLinks 5 basic background R ["child"; "missing"] []
                 = Ret ([R; N1], Some (ErrNoLink "missing" idN1)) [idN1])
    by reflexivity.
  split; [exact Hrun|].
  destruct (ResolveLinks_starts_with_root 5 basic background R
              ["child"; "missing"] [] Hrun) as (Hne & Hhd & _).
  split; [exact Hne | exact Hhd].
Defined.

(** ** Where the code departs from the specification's sentences *)

(** C4. The data field [foo] of [N2] makes the single-hop resolver fail with
    an error that is not link-not-found, and with no link; [ResolveToLastNode]
    does not return that error: it goes on to the in-node resolution and
    succeeds. The strict walk returns the error. *)
Lemma ResolveToLastNode_drops_hop_error :
  ResolveOnce basic background (DAG basic) N2 ["foo"] []
  = Ret (None, [], Some (ErrForeign "non-link found at given path")) []
  /\ is_ErrLinkNotFound (Cid := Cid) (ErrForeign "non-link found at given path")
     = false
  /\ ResolveToLastNode 5 basic background (testPath ++ "/foo") []
     = Ret (Some idN2, ["foo"], None) [idR; idN1; idN2]
  /\ ResolveLinks 5 basic background R ["child"; "grandchild"; "foo"] []
     = Ret ([R; N1; N2], Some (ErrForeign "non-link found at given path"))
           [idN1; idN2].
Proof. repeat split. Qed.

(** C5. On [/dms3fs/] the error is [ErrNoComponents], not [ErrBadPath]. *)
Lemma empty_identifier_is_no_components :
  ParsePath (Cid := Cid) "/dms3fs/" = inl ErrNoComponents
  /\ ParsePath (Cid := Cid) "/dms3fs/" <> inl ErrBadPath.
Proof. split; [reflexivity | discriminate]. Qed.

(** C6. An upper-case base 16 identifier is bare and decodes, but its path is
    built from the lower-case canonical string: it is not the path of
    [/dms3fs/] followed by the identifier, and its second segment is not the
    identifier. *)
Lemma bare_identifier_not_canonical :
  no_slash "F01551220ABCD"
  /\ Decode "F01551220ABCD" = inr "f01551220abcd"
  /\ ParsePath (Cid := Cid) "F01551220ABCD" = inr "/dms3fs/f01551220abcd"
  /\ ParsePath (Cid := Cid) "/dms3fs/F01551220ABCD" = inr "/dms3fs/F01551220ABCD"
  /\ ParsePath (Cid := Cid) "F01551220ABCD"
     <> ParsePath (Cid := Cid) "/dms3fs/F01551220ABCD"
  /\ Segments "/dms3fs/f01551220abcd" <> ["dms3fs"; "F01551220ABCD"].
Proof. repeat split; discriminate. Qed.


(** * Further properties of the path package *)

Lemma Split_cons_inv (s e : string) (r : list string) :
  Split s = e :: r -> r <> [] ->
  exists s', s = e ++ String "/" s' /\ Split s' = r.
Proof.
  revert e r. induction s as [|c s IH]; simpl; intros e r.
  - intros E. injection E as <- <-. congruence.
  - destruct (Ascii.eqb_spec c "/") as [->|Hc].
    + intros E _. injection E as <- <-. now exists s.
    + pose proof (Split_not_nil s) as Hn.
      destruct (Split s) as [|h t]; [congruence|].
      intros E Hr. injection E as <- <-.
      destruct (IH h t eq_refl Hr) as (s' & -> & Hs').
      now exists s'.
Qed.

Lemma Join_Split (s : string) : Join (Split s) = s.
Proof.
  induction s as [|c s IH]; [reflexivity|]. simpl.
  pose proof (Split_not_nil s) as Hn.
  destruct (Ascii.eqb_spec c "/") as [->|Hc].
  - destruct (Split s) as [|h t]; [congruence|].
    change (Join ("" :: h :: t)) with (String "/" (Join (h :: t))). now rewrite IH.
  - destruct (Split s) as [|h t]; [congruence|].
    destruct t as [|h' t].
    + simpl in *. now rewrite IH.
    + change (Join (String c h :: h' :: t)) with (String c (Join (h :: h' :: t))).
      now rewrite IH.
Qed.

Lemma unrooted_hd (txt : string) :
  txt <> "" -> rooted txt = false -> nth 0 (Split txt) "" <> "".
Proof.
  intros Hne Hr E. destruct (Split_hd_empty _ E); congruence.
Qed.

Section ParseMore.

Context {Cid : Type} `{CidCodec Cid}.

Lemma Split_single (txt : string) :
  List.length (Split txt) = 1 -> Split txt = [txt].
Proof.
  intros E. pose proof (Join_Split txt) as HJ.
  destruct (Split txt) as [|a [|b t]]; simpl in E; try discriminate.
  simpl in HJ. now subst.
Qed.

(** [ParsePath] on a text that does not start with a slash: a text without
    any slash has to be an identifier; otherwise its first part has to. *)
Lemma ParsePath_unrooted (txt : string) :
  rooted txt = false ->
  ParsePath txt =
  if Nat.eqb (List.length (Split txt)) 1 then
    match ParseCidToPath txt with
    | inr kp => inr kp
    | inl _ => inl ErrBadPath
    end
  else
    match ParseCidToPath (nth 0 (Split txt) "") with
    | inl _ => inl ErrBadPath
    | inr _ => inr ("/dms3fs/" ++ txt)
    end.
Proof.
  intros Hr. unfold ParsePath.
  destruct (String.eqb_spec txt "") as [->|Hne]; [reflexivity|].
  pose proof (unrooted_hd Hne Hr) as Hhd. apply String.eqb_neq in Hhd.
  rewrite Hhd. simpl negb. cbv iota.
  destruct (Nat.eqb_spec (List.length (Split txt)) 1) as [E1|E1].
  - destruct (ParseCidToPath txt) eqn:E2; [|reflexivity].
    rewrite (Split_single _ E1). simpl. now rewrite E2.
  - reflexivity.
Qed.

(** X1. Every path [ParsePath] returns starts with one of the three
    namespace prefixes, [/dms3fs/], [/dms3ns/] or [/dms3ld/]. *)
Theorem ParsePath_prefixed (txt : string) (p : Path) :
  ParsePath txt = inr p ->
  exists tag rest,
    p = "/" ++ tag ++ "/" ++ rest
    /\ (tag = "dms3fs" \/ tag = "dms3ns" \/ tag = "dms3ld").
Proof.
  destruct (rooted txt) eqn:Hr.
  - destruct (rooted_String _ Hr) as [s ->]. intros Hp.
    destruct (ParsePath_slash_inv _ Hp) as (-> & p1 & p2 & t & Hs & Htag).
    destruct (Split_cons_inv _ Hs) as (s' & -> & _); [discriminate|].
    exists p1, s'. split; [reflexivity|].
    destruct Htag as [(-> & _) | [-> | ->]]; auto.
  - rewrite (ParsePath_unrooted _ Hr).
    destruct (Nat.eqb (List.length (Split txt)) 1).
    + destruct (ParseCidToPath txt) as [e|kp] eqn:E; [discriminate|].
      intros E'. injection E' as <-.
      destruct (ParseCidToPath_inv _ E) as (_ & c & _ & ->).
      exists "dms3fs", (CidString c). auto.
    + destruct (ParseCidToPath _); [discriminate|].
      intros E'. injection E' as <-. exists "dms3fs", txt. auto.
Qed.

(** The errors [ParsePath] can return. *)
Lemma ParsePath_error_cases (txt : string) (e : error Cid) :
  ParsePath txt = inl e ->
  e = ErrBadPath
  \/ exists id rest,
       Split txt = "" :: "dms3fs" :: id :: rest
       /\ ((id = "" /\ e = ErrNoComponents) \/ (id <> "" /\ Decode id = inl e)).
Proof.
  destruct (rooted txt) eqn:Hr.
  - destruct (rooted_String _ Hr) as [s ->].
    rewrite ParsePath_slash, Split_cons_slash.
    destruct (Split s) as [|p1 [|p2 t]]; try (intros E; injection E as <-; auto).
    destruct (String.eqb_spec p1 "dms3fs") as [->|N1].
    + unfold ParseCidToPath.
      destruct (String.eqb_spec p2 "") as [->|N2].
      * intros E. injection E as <-. right. exists "", t. auto.
      * destruct (Decode p2) as [e'|c] eqn:Hd; [|discriminate].
        intros E. injection E as <-. right. exists p2, t. auto.
    + destruct (negb _ && negb _); [|discriminate].
      intros E. injection E as <-. auto.
  - rewrite (ParsePath_unrooted _ Hr).
    destruct (Nat.eqb (List.length (Split txt)) 1).
    + destruct (ParseCidToPath txt); [|discriminate].
      intros E. injection E as <-. auto.
    + destruct (ParseCidToPath _); [|discriminate].
      intros E. injection E as <-. auto.
Qed.

(** X2. The errors of [ParsePath]. On a text that starts with [/dms3fs/]
    and whose identifier after the tag is not accepted, the error is the one
    of that identifier: [ErrNoComponents] when it is empty, the error of the
    decoder when it does not decode. Every other failure is [ErrBadPath]; in
    particular a text that does not start with a slash and whose first part
    does not decode gets [ErrBadPath], not the error of the decoder. *)
Theorem ParsePath_errors (txt : string) :
  (forall id rest,
     Split txt = "" :: "dms3fs" :: id :: rest ->
     (id = "" -> ParsePath txt = inl ErrNoComponents)
     /\ (forall e, id <> "" -> Decode id = inl e -> ParsePath txt = inl e))
  /\ (forall e,
        ParsePath txt = inl e ->
        (forall id rest, Split txt <> "" :: "dms3fs" :: id :: rest) ->
        e = ErrBadPath)
  /\ (rooted txt = false ->
      (forall c, Decode (nth 0 (Split txt) "") <> inr c) ->
      ParsePath txt = inl ErrBadPath).
Proof.
  split; [|split].
  - intros id rest Hsplit.
    assert (Hr : rooted txt = true).
    { destruct (Split_hd_empty txt) as [->|Hr];
        [now rewrite Hsplit | discriminate | exact Hr]. }
    destruct (rooted_String _ Hr) as [s ->].
    rewrite Split_cons_slash in Hsplit. injection Hsplit as Hsplit.
    rewrite ParsePath_slash, Hsplit. simpl String.eqb. cbv iota.
    unfold ParseCidToPath. split.
    + intros ->. reflexivity.
    + intros e Hne Hd. apply String.eqb_neq in Hne. now rewrite Hne, Hd.
  - intros e Hp Hno.
    destruct (ParsePath_error_cases _ Hp) as [He | (id & rest & Hsplit & _)];
      [exact He | now apply Hno in Hsplit].
  - intros Hr Hd. rewrite (ParsePath_unrooted _ Hr).
    destruct (Nat.eqb_spec (List.length (Split txt)) 1) as [E1|E1].
    + rewrite (Split_single _ E1) in Hd. simpl in Hd.
      unfold ParseCidToPath. destruct (String.eqb txt ""); [reflexivity|].
      destruct (Decode txt) as [e|c]; [reflexivity | now specialize (Hd c)].
    + unfold ParseCidToPath.
      destruct (String.eqb (nth 0 (Split txt) "") ""); [reflexivity|].
      destruct (Decode (nth 0 (Split txt) "")) as [e|c];
        [reflexivity | now specialize (Hd c)].
Qed.

End ParseMore.

Section ParseShape.

Context {Cid : Type} `{CidCodec Cid}.

(** X3. A path [ParsePath] returns is accepted again, unchanged, so
    [IsValid] holds of it; for a bare identifier this needs the canonical
    string of the decoded identifier to be a slash-free text that decodes. *)
Theorem ParsePath_reparse (txt : string) (p : Path) :
  ParsePath txt = inr p ->
  (forall c, Decode txt = inr c ->
     CidString c <> "" /\ no_slash (CidString c)
     /\ exists c', Decode (CidString c) = inr c') ->
  ParsePath p = inr p /\ IsValid p = None.
Proof.
  intros Hp Hcanon.
  assert (Hre : ParsePath p = inr p).
  { destruct (rooted txt) eqn:Hr.
    - destruct (rooted_String _ Hr) as [s ->].
      destruct (ParsePath_slash_inv _ Hp) as (-> & _). exact Hp.
    - rewrite (ParsePath_unrooted _ Hr) in Hp.
      destruct (Nat.eqb (List.length (Split txt)) 1).
      + destruct (ParseCidToPath txt) as [e|kp] eqn:E; [discriminate|].
        injection Hp as <-.
        destruct (ParseCidToPath_inv _ E) as (_ & c & Hd & ->).
        destruct (Hcanon c Hd) as (Hne & Hns & c' & Hd').
        change (FromCid c) with (String "/" ("dms3fs" ++ String "/" (CidString c))).
        rewrite ParsePath_slash, Split_app_slash by reflexivity.
        unfold no_slash in Hns. rewrite Hns. simpl.
        now rewrite (ParseCidToPath_ok Hne Hd').
      + destruct (ParseCidToPath (nth 0 (Split txt) "")) as [e|kp] eqn:E;
          [discriminate|].
        injection Hp as <-.
        change (ParsePath (String "/" ("dms3fs" ++ String "/" txt))
                = inr (String "/" ("dms3fs" ++ String "/" txt))).
        rewrite ParsePath_slash, Split_app_slash by reflexivity.
        pose proof (Split_not_nil txt) as Hn.
        destruct (Split txt) as [|h t]; [congruence|].
        simpl in E |- *. now rewrite E. }
  split; [exact Hre|]. unfold IsValid, PathString. now rewrite Hre.
Qed.

(** X4. What [ParsePath] checks after the tag. Under [/dms3ns/] and
    [/dms3ld/] nothing: any text after the tag, the empty one too, is
    accepted as it is. Under [/dms3fs/] the part up to the next slash has to
    be a non-empty text that decodes, and nothing after it is looked at. *)
Theorem ParsePath_tag_check (s : string) :
  ParsePath ("/dms3ns/" ++ s) = inr ("/dms3ns/" ++ s)
  /\ ParsePath ("/dms3ld/" ++ s) = inr ("/dms3ld/" ++ s)
  /\ ParsePath ("/dms3fs/" ++ s) =
     match ParseCidToPath (nth 0 (Split s) "") with
     | inl e => inl e
     | inr _ => inr ("/dms3fs/" ++ s)
     end.
Proof.
  pose proof (Split_not_nil s) as Hn.
  repeat split.
  - change ("/dms3ns/" ++ s) with (String "/" ("dms3ns" ++ String "/" s)).
    rewrite ParsePath_slash, Split_app_slash by reflexivity.
    destruct (Split s); [congruence | reflexivity].
  - change ("/dms3ld/" ++ s) with (String "/" ("dms3ld" ++ String "/" s)).
    rewrite ParsePath_slash, Split_app_slash by reflexivity.
    destruct (Split s); [congruence | reflexivity].
  - change ("/dms3fs/" ++ s) with (String "/" ("dms3fs" ++ String "/" s)).
    rewrite ParsePath_slash, Split_app_slash by reflexivity.
    destruct (Split s); [congruence | reflexivity].
Qed.

(** X5. The segments of a path that starts with a slash: either the path
    cleans to the root and its segments are the one empty segment, or no
    segment is empty, [.] or [..] or holds a slash, and the segments joined
    after a slash are the cleaned path. *)
Theorem Segments_rooted_plain (p : Path) :
  rooted p = true ->
  (Clean p = "/" /\ Segments p = [""])
  \/ (Forall plain (Segments p) /\ Clean p = "/" ++ Join (Segments p)).
Proof.
  intros Hr. destruct (Clean_rooted _ Hr) as (els & Hels & Hc).
  rewrite (Segments_of_Clean p Hels Hc).
  destruct els as [|e els]; [left | right]; auto.
Qed.

(** X6. Splitting a text and joining the parts gives the text back. *)
Theorem Join_SplitList (pth : string) :
  PathLists.Join (PathLists.SplitList pth) = pth.
Proof.
  unfold PathLists.Join, PathLists.SplitList.
  induction pth as [|c s IH]; [reflexivity|]. simpl.
  pose proof (Split_not_nil s) as Hn.
  destruct (Split s) as [|h t]; [congruence|].
  destruct (Ascii.eqb_spec c "/") as [->|Hc].
  - change (Join ("" :: h :: t)) with (String "/" (Join (h :: t))).
    now rewrite IH.
  - destruct t as [|h' t]; [simpl in *; now rewrite IH|].
    change (Join (String c h :: h' :: t)) with (String c (Join (h :: h' :: t))).
    now rewrite IH.
Qed.

(** X7. Joining parts and splitting gives the parts back when there is at
    least one part and no part holds a slash. *)
Theorem SplitList_Join (pths : list string) :
  pths <> [] -> Forall no_slash pths ->
  PathLists.SplitList (PathLists.Join pths) = pths.
Proof.
  intros Hne Hall. unfold PathLists.Join, PathLists.SplitList.
  now apply Split_Join.
Qed.

(** X8. [FromSegments] with the prefix of a tag, an identifier and link
    names that are plain segments: the path is the segments joined after a
    slash, [Segments] gives the tag, the identifier and the names back, and
    the path is just a key exactly when there are no names and the tag is
    not [dms3ns]. Under [dms3fs] the identifier has to decode. *)
Theorem FromSegments_Segments (tag id : string) (names : list string) :
  plain id -> Forall plain names ->
  (tag = "dms3fs" /\ exists c, Decode id = inr c)
  \/ tag = "dms3ns" \/ tag = "dms3ld" ->
  let p := "/" ++ Join (tag :: id :: names) in
  FromSegments ("/" ++ tag ++ "/") (id :: names) = inr p
  /\ Segments p = tag :: id :: names
  /\ IsJustAKey p = match names with
                    | [] => negb (String.eqb tag "dms3ns")
                    | _ :: _ => false
                    end.
Proof.
  intros Hid Hnames Htag p.
  assert (Hall : Forall plain (tag :: id :: names)).
  { constructor; [|now constructor].
    destruct Htag as [(-> & _) | [-> | ->]]; repeat split; discriminate. }
  assert (Hns : Forall no_slash (tag :: id :: names)).
  { eapply Forall_impl; [|exact Hall]. apply plain_no_slash. }
  assert (Hseg : Segments p = tag :: id :: names).
  { apply Segments_root_Join; [assumption | discriminate]. }
  split; [|split; [exact Hseg|]].
  - unfold FromSegments.
    assert (Hparse : ParsePath p = inr p).
    { unfold p.
      change ("/" ++ Join (tag :: id :: names))
        with (String "/" (Join (tag :: id :: names))).
      rewrite ParsePath_slash, Split_Join by (assumption || discriminate).
      destruct Hid as (Hne & _).
      destruct Htag as [(-> & c & Hd) | [-> | ->]]; simpl.
      - now rewrite (ParseCidToPath_ok Hne Hd).
      - reflexivity.
      - reflexivity. }
    destruct Htag as [(-> & _) | [-> | ->]]; exact Hparse.
  - unfold IsJustAKey. rewrite Hseg.
    destruct names as [|n names]; [|reflexivity].
    destruct Htag as [(-> & _) | [-> | ->]]; reflexivity.
Qed.

(** X9. The path of an identifier splits back to the identifier and no
    names, is just a key, and popping its last segment leaves it as it is;
    this when the canonical string is a plain segment that decodes. *)
Theorem SplitAbsPath_FromCid (c c' : Cid) :
  plain (CidString c) -> Decode (CidString c) = inr c' ->
  Segments (FromCid c) = ["dms3fs"; CidString c]
  /\ SplitAbsPath (FromCid c) = Some (inr (c', []))
  /\ IsJustAKey (FromCid c) = true
  /\ PopLastSegment (FromCid c) = inr (FromCid c, "").
Proof.
  intros Hp Hd.
  assert (Hseg : Segments (FromCid c) = ["dms3fs"; CidString c]).
  { change (FromCid c) with ("/" ++ Join ["dms3fs"; CidString c]).
    apply Segments_root_Join; [|discriminate].
    constructor; [|constructor; [assumption | constructor]].
    repeat split; discriminate. }
  assert (Hk : IsJustAKey (FromCid c) = true).
  { unfold IsJustAKey. now rewrite Hseg. }
  split; [exact Hseg|]. split; [|split; [exact Hk|]].
  - unfold SplitAbsPath. rewrite Hseg. simpl. now rewrite Hd.
  - unfold PopLastSegment. now rewrite Hk.
Qed.

(** X10. [SplitAbsPath] does not ask for the tag: for an identifier that is
    not itself a tag, the path of the identifier and the names splits the
    same way with no tag, with [dms3fs] and with [dms3ld] in front; the
    result is the decoded identifier with the names, or the error of the
    decoder. [ParsePath] rejects the spelling with no tag. *)
Theorem SplitAbsPath_tag_optional (id : string) (names : list string) :
  plain id -> Forall plain names ->
  id <> "dms3fs" -> id <> "dms3ld" -> id <> "dms3ns" ->
  let r := match Decode id with
           | inl e => inl e
           | inr c => inr (c, names)
           end in
  SplitAbsPath ("/" ++ Join (id :: names)) = Some r
  /\ SplitAbsPath ("/" ++ Join ("dms3fs" :: id :: names)) = Some r
  /\ SplitAbsPath ("/" ++ Join ("dms3ld" :: id :: names)) = Some r
  /\ ParsePath ("/" ++ Join (id :: names)) = inl ErrBadPath.
Proof.
  intros Hid Hnames N1 N2 N3 r.
  assert (Hall : Forall plain (id :: names)) by now constructor.
  assert (Htag : forall tag, plain tag -> Forall plain (tag :: id :: names))
    by (intros; now constructor).
  apply String.eqb_neq in N1, N2, N3.
  repeat split.
  - unfold SplitAbsPath.
    rewrite Segments_root_Join by (assumption || discriminate).
    rewrite N1, N2. simpl. unfold r. destruct (Decode id); reflexivity.
  - unfold SplitAbsPath.
    rewrite Segments_root_Join
      by (try discriminate; apply Htag; repeat split; discriminate).
    simpl. unfold r. destruct (Decode id); reflexivity.
  - unfold SplitAbsPath.
    rewrite Segments_root_Join
      by (try discriminate; apply Htag; repeat split; discriminate).
    simpl. unfold r. destruct (Decode id); reflexivity.
  - change ("/" ++ Join (id :: names)) with (String "/" (Join (id :: names))).
    rewrite ParsePath_slash, Split_Join; [| |discriminate].
    + destruct names as [|n names]; [reflexivity|].
      rewrite N1, N3, N2. reflexivity.
    + eapply Forall_impl; [|exact Hall]. apply plain_no_slash.
Qed.

(** X11. [ParsePath] checks the text as written, [SplitAbsPath] works on
    the cleaned path: in [/dms3fs/id/../x] it is [id] that [ParsePath] asks
    to decode, while the path splits into what [x] decodes to. *)
Theorem ParsePath_checks_uncleaned (id x : string) (c : Cid) :
  plain id -> plain x -> Decode id = inr c ->
  let p := "/dms3fs/" ++ id ++ "/../" ++ x in
  ParsePath p = inr p
  /\ Segments p = ["dms3fs"; x]
  /\ SplitAbsPath p = Some match Decode x with
                           | inl e => inl e
                           | inr c' => inr (c', [])
                           end.
Proof.
  intros Hid Hx Hd p.
  assert (Hsplit : Split ("dms3fs" ++ String "/" (id ++ String "/" (".." ++ String "/" x)))
                   = ["dms3fs"; id; ".."; x]).
  { destruct Hx as (_ & _ & _ & Hxs).
    rewrite Split_app_slash by reflexivity.
    rewrite Split_app_slash by (apply plain_no_slash, Hid).
    rewrite Split_app_slash by reflexivity.
    now rewrite Hxs. }
  assert (Hp : p = String "/" ("dms3fs" ++ String "/" (id ++ String "/" (".." ++ String "/" x)))).
  { reflexivity. }
  assert (Hseg : Segments p = ["dms3fs"; x]).
  { unfold Segments, Clean. rewrite Hp. simpl is_empty. simpl rooted. cbv iota.
    rewrite Split_cons_slash, Hsplit.
    cbn [fold_left].
    change (clean_step true (mkbuf [] 0) "") with (mkbuf [] 0).
    rewrite (clean_step_plain true (mkbuf [] 0) (e := "dms3fs"))
      by (repeat split; discriminate).
    rewrite (clean_step_plain true _ Hid).
    change (clean_step true (mkbuf (id :: elems (mkbuf ("dms3fs" :: elems (mkbuf [] 0)) (dotdot (mkbuf [] 0))))
                              (dotdot (mkbuf ("dms3fs" :: elems (mkbuf [] 0)) (dotdot (mkbuf [] 0))))) "..")
      with (mkbuf ["dms3fs"] 0).
    rewrite (clean_step_plain true _ Hx). simpl elems. simpl rev.
    change ("/" ++ Join ["dms3fs"; x]) with (String "/" ("dms3fs" ++ String "/" x)).
    rewrite Split_cons_slash, Split_app_slash by reflexivity.
    destruct Hx as (_ & _ & _ & Hxs). rewrite Hxs. reflexivity. }
  split; [|split; [exact Hseg|]].
  - change (ParsePath (String "/" ("dms3fs" ++ String "/"
                        (id ++ String "/" (".." ++ String "/" x)))) = inr p).
    rewrite ParsePath_slash, Hsplit. cbn [String.eqb Ascii.eqb Bool.eqb].
    destruct Hid as (Hne & _). rewrite (ParseCidToPath_ok Hne Hd).
    reflexivity.
  - unfold SplitAbsPath. rewrite Hseg. simpl.
    destruct (Decode x); reflexivity.
Qed.

End ParseShape.

(** * Further properties of the resolver *)

Section WalkMore.

Context {Ctx Cid Node : Type}.
Context `{CidCodec Cid} `{DagNode Cid Node} `{Context Ctx}.

Implicit Types (r : Resolver Ctx Cid Node) (ds : NodeGetter Ctx Cid Node).
Implicit Types (ctx : Ctx) (nd ndd root : Node) (names : list string).
Implicit Types (fetched : list Cid) (nodes result more : list Node).

Lemma walks_last r ctx nd names fetched more ctx' nd' names' fetched' :
  walks r ctx nd names fetched more ctx' nd' names' fetched' ->
  nd' = last more nd.
Proof.
  induction 1 as [|ctx nd name names fetched l rest fetched1 next nodes
                   ctx' nd' names' fetched' _ _ _ IH]; [reflexivity|].
  now rewrite last_cons_default.
Qed.

(** Every return of the loop of [ResolveLinks]: the nodes added are those of
    the successful hops made, and the loop stopped either with the names
    used up, or at a hop whose [ResolveOnce] gave an error, or at a hop whose
    link could not be fetched. *)
Lemma ResolveLinks_loop_cases fuel r :
  forall ctx nd names result fetched nodes err fetched',
  ResolveLinks_loop fuel r ctx nd names result fetched = Ret (nodes, err) fetched' ->
  exists more ctx' nd' names' f1,
    nodes = (result ++ more)%list
    /\ walks r ctx nd names fetched more ctx' nd' names' f1
    /\ match err with
       | None => names' = [] /\ fetched' = f1
       | Some e =>
           exists name rest, names' = name :: rest /\
             ((exists lnk rest' e0,
                 ResolveOnce r (WithTimeout ctx' Minute) (DAG r) nd' names' f1
                   = Ret (lnk, rest', Some e0) fetched'
                 /\ e = if is_ErrLinkNotFound e0
                        then ErrNoLink name (NodeCid nd') else e0)
              \/ (exists l rest' f2,
                 ResolveOnce r (WithTimeout ctx' Minute) (DAG r) nd' names' f1
                   = Ret (Some l, rest', None) f2
                 /\ Get (DAG r) (WithTimeout ctx' Minute) (LinkCid l) = inl e
                 /\ fetched' = (f2 ++ [LinkCid l])%list))
       end.
Proof.
  induction fuel as [|fuel IH]; intros ctx nd names result fetched nodes err fetched'.
  - destruct names; simpl; [|discriminate].
    intros E. injection E as <- <- <-.
    exists [], ctx, nd, [], fetched. rewrite app_nil_r.
    repeat split. constructor.
  - destruct names as [|name names].
    + simpl. intros E. injection E as <- <- <-.
      exists [], ctx, nd, [], fetched. rewrite app_nil_r.
      repeat split. constructor.
    + simpl. unfold bind.
      destruct (ResolveOnce r (WithTimeout ctx Minute) (DAG r) nd (name :: names) fetched)
        as [[[lnk rest] e] f1| |] eqn:Hro; [|discriminate|discriminate].
      destruct e as [e0|].
      * intros E.
        assert (E' : nodes = result /\ fetched' = f1
                     /\ err = Some (if is_ErrLinkNotFound e0
                                    then ErrNoLink name (NodeCid nd) else e0)).
        { destruct (is_ErrLinkNotFound e0); injection E as <- <- <-; auto. }
        destruct E' as (-> & -> & ->).
        exists [], ctx, nd, (name :: names), fetched. rewrite app_nil_r.
        split; [reflexivity|]. split; [constructor|].
        exists name, names. split; [reflexivity|]. left.
        exists lnk, rest, e0. auto.
      * destruct lnk as [l|]; [|discriminate].
        unfold GetNode, DAGGet.
        destruct (Get (DAG r) (WithTimeout ctx Minute) (LinkCid l)) as [e|next] eqn:Hg.
        -- intros E. injection E as <- <- <-.
           exists [], ctx, nd, (name :: names), fetched. rewrite app_nil_r.
           split; [reflexivity|]. split; [constructor|].
           exists name, names. split; [reflexivity|]. right.
           exists l, rest, f1. auto.
        -- intros E. apply IH in E
             as (more & ctx' & nd' & names' & f2 & -> & Hw & Hstop).
           exists (next :: more), ctx', nd', names', f2.
           split; [now rewrite <- app_assoc|].
           split; [|exact Hstop].
           eapply walks_hop; eassumption.
Qed.

(** X12. When [ResolveLinks] returns no error, every name was resolved:
    the nodes after the root are those of successful hops that used up the
    names, one hop after the other, and the last node returned is the node
    the last hop reached. *)
Theorem ResolveLinks_success fuel r ctx ndd names fetched nodes fetched' :
  ResolveLinks fuel r ctx ndd names fetched = Ret (nodes, None) fetched' ->
  exists more ctx',
    nodes = ndd :: more
    /\ walks r ctx ndd names fetched more ctx' (last nodes ndd) [] fetched'.
Proof.
  unfold ResolveLinks. intros E.
  apply ResolveLinks_loop_cases in E
    as (more & ctx' & nd' & names' & f1 & -> & Hw & -> & ->).
  exists more, ctx'. split; [reflexivity|].
  change ([ndd] ++ more)%list with (ndd :: more).
  rewrite last_cons_default, <- (walks_last Hw). exact Hw.
Qed.

(** X13. When [ResolveLinks] returns an error, the nodes returned are the
    root and those of the successful hops before, and the error comes from
    the hop after them, with a name still to resolve: either [ResolveOnce]
    gave an error there, returned as it is except that link-not-found
    becomes [ErrNoLink] with that name and the cursor's identifier, or the
    fetch of the link failed and its error is returned. *)
Theorem ResolveLinks_failure fuel r ctx ndd names fetched nodes e fetched' :
  ResolveLinks fuel r ctx ndd names fetched = Ret (nodes, Some e) fetched' ->
  exists more ctx' nd' name rest f1,
    nodes = ndd :: more
    /\ walks r ctx ndd names fetched more ctx' nd' (name :: rest) f1
    /\ ((exists lnk rest' e0,
           ResolveOnce r (WithTimeout ctx' Minute) (DAG r) nd' (name :: rest) f1
             = Ret (lnk, rest', Some e0) fetched'
           /\ e = if is_ErrLinkNotFound e0
                  then ErrNoLink name (NodeCid nd') else e0)
        \/ (exists l rest' f2,
           ResolveOnce r (WithTimeout ctx' Minute) (DAG r) nd' (name :: rest) f1
             = Ret (Some l, rest', None) f2
           /\ Get (DAG r) (WithTimeout ctx' Minute) (LinkCid l) = inl e
           /\ fetched' = (f2 ++ [LinkCid l])%list)).
Proof.
  unfold ResolveLinks. intros E.
  apply ResolveLinks_loop_cases in E
    as (more & ctx' & nd' & names' & f1 & -> & Hw & name & rest & -> & Hstop).
  exists more, ctx', nd', name, rest, f1. auto.
Qed.

Lemma walks_ctx_iter r ctx nd names fetched more ctx' nd' names' fetched' :
  walks r ctx nd names fetched more ctx' nd' names' fetched' ->
  ctx' = Nat.iter (List.length more) (fun c => WithTimeout c Minute) ctx.
Proof.
  induction 1 as [|ctx nd name names fetched l rest fetched1 next nodes
                   ctx' nd' names' fetched' _ _ _ IH]; [reflexivity|].
  rewrite IH. simpl List.length.
  clear. induction (List.length nodes) as [|n IHn]; [reflexivity|].
  simpl in *. now rewrite IHn.
Qed.

(** X14. The context of the hops: each hop of [ResolveLinks] derives its
    context, with a timeout of one minute, from the context of the hop
    before. So when [ResolveLinks] returns, the hops it made ran under one,
    two, ... nested timeouts of the caller's context, and the context after
    the k hops that gave the k nodes after the root is the caller's under k
    nested timeouts. *)
Theorem ResolveLinks_context fuel r ctx ndd names fetched nodes err fetched' :
  ResolveLinks fuel r ctx ndd names fetched = Ret (nodes, err) fetched' ->
  exists more ctx' nd' names' f1,
    nodes = ndd :: more
    /\ walks r ctx ndd names fetched more ctx' nd' names' f1
    /\ ctx' = Nat.iter (List.length more) (fun c => WithTimeout c Minute) ctx.
Proof.
  unfold ResolveLinks. intros E.
  apply ResolveLinks_loop_cases in E
    as (more & ctx' & nd' & names' & f1 & -> & Hw & _).
  exists more, ctx', nd', names', f1.
  split; [reflexivity|]. split; [exact Hw|]. exact (walks_ctx_iter Hw).
Qed.

End WalkMore.

Section EntryPoints.

Context {Ctx Cid Node : Type}.
Context `{CidCodec Cid} `{DagNode Cid Node} `{Context Ctx}.

Implicit Types (r : Resolver Ctx Cid Node) (ds : NodeGetter Ctx Cid Node).
Implicit Types (ctx : Ctx) (nd ndd root : Node) (names : list string).
Implicit Types (fetched : list Cid) (nodes result more : list Node).

Lemma SplitAbsPath_not_None (fpath : Path) : SplitAbsPath fpath <> None.
Proof.
  unfold SplitAbsPath. pose proof (Segments_not_nil fpath) as Hn.
  destruct (Segments fpath) as [|p0 rest]; [congruence|].
  destruct (String.eqb p0 "dms3fs" || String.eqb p0 "dms3ld").
  - destruct rest; [discriminate|]. destruct (Decode s); discriminate.
  - destruct (Decode p0); discriminate.
Qed.

(** X15. When the path does not split into an identifier and names, none of
    the three entry points asks the fetch service: [ResolvePathComponents]
    and [ResolveToLastNode] return the error of [SplitAbsPath], and
    [ResolvePath] returns the error of [IsValid] if the path is not valid,
    the error of [SplitAbsPath] otherwise. *)
Theorem split_error_no_fetch fuel r ctx (fpath : Path) (e : error Cid) fetched :
  SplitAbsPath fpath = Some (inl e) ->
  ResolvePathComponents fuel r ctx fpath fetched = Ret (None, Some e) fetched
  /\ ResolveToLastNode fuel r ctx fpath fetched = Ret (None, [], Some e) fetched
  /\ ResolvePath fuel r ctx fpath fetched
     = Ret (None, Some match IsValid fpath with
                       | Some e' => e'
                       | None => e
                       end) fetched.
Proof.
  intros Hs.
  assert (Hc : ResolvePathComponents fuel r ctx fpath fetched
               = Ret (None, Some e) fetched).
  { unfold ResolvePathComponents. now rewrite Hs. }
  split; [exact Hc|]. split.
  - unfold ResolveToLastNode. now rewrite Hs.
  - unfold ResolvePath. destruct (IsValid fpath); [reflexivity|].
    unfold bind. now rewrite Hc.
Qed.

(** X16. A path under the [dms3ns] tag is valid for [IsValid], yet the
    resolver cannot resolve it: [SplitAbsPath] removes only the [dms3fs] and
    [dms3ld] tags, so it is the text [dms3ns] that goes to the decoder, and
    when the decoder rejects it both [ResolvePath] and [ResolveToLastNode]
    return that error without asking the fetch service. *)
Theorem dms3ns_path_not_resolved fuel r ctx (names : list string)
        (e : error Cid) fetched :
  Forall plain names -> names <> [] -> Decode "dms3ns" = inl e ->
  let p := "/" ++ Join ("dms3ns" :: names) in
  IsValid p = None
  /\ ResolvePath fuel r ctx p fetched = Ret (None, Some e) fetched
  /\ ResolveToLastNode fuel r ctx p fetched = Ret (None, [], Some e) fetched.
Proof.
  intros Hnames Hne Hd p.
  assert (Hall : Forall plain ("dms3ns" :: names)).
  { constructor; [repeat split; discriminate | assumption]. }
  assert (Hv : IsValid p = None).
  { unfold IsValid, PathString, p.
    change ("/" ++ Join ("dms3ns" :: names))
      with (String "/" (Join ("dms3ns" :: names))).
    rewrite ParsePath_slash, Split_Join; [| |discriminate].
    - destruct names; [congruence | reflexivity].
    - eapply Forall_impl; [|exact Hall]. apply plain_no_slash. }
  assert (Hs : SplitAbsPath p = Some (inl e)).
  { unfold SplitAbsPath, p.
    rewrite Segments_root_Join by (assumption || discriminate).
    simpl. now rewrite Hd. }
  split; [exact Hv|]. split.
  - unfold ResolvePath, bind, ResolvePathComponents. now rewrite Hv, Hs.
  - unfold ResolveToLastNode. now rewrite Hs.
Qed.

Lemma ResolveLinks_loop_no_panic r :
  (forall ctx nd names fetched,
     ResolveOnce r ctx (DAG r) nd names fetched <> Panic
     /\ forall rest fetched',
          ResolveOnce r ctx (DAG r) nd names fetched
          <> Ret (None, rest, None) fetched') ->
  forall fuel ctx nd names result fetched,
    ResolveLinks_loop fuel r ctx nd names result fetched <> Panic.
Proof.
  intros Hro. induction fuel as [|fuel IH]; intros ctx nd names result fetched.
  - destruct names; discriminate.
  - destruct names as [|name names]; [discriminate|].
    simpl. unfold bind.
    destruct (Hro (WithTimeout ctx Minute) nd (name :: names) fetched) as (Hp & Hnil).
    destruct (ResolveOnce r (WithTimeout ctx Minute) (DAG r) nd (name :: names) fetched)
      as [[[lnk rest] e] f1| |]; [|congruence|discriminate].
    destruct e as [e0|].
    + destruct (is_ErrLinkNotFound e0); discriminate.
    + destruct lnk as [l|]; [|now specialize (Hnil rest f1)].
      unfold GetNode, DAGGet.
      destruct (Get (DAG r) (WithTimeout ctx Minute) (LinkCid l)); [discriminate|].
      apply IH.
Qed.

(** X17. [ResolveLinks], [ResolvePathComponents] and [ResolvePath] do not
    panic when the single-hop resolver does not and never returns a nil link
    together with a nil error: the link is never dereferenced when nil, the
    read of the first segment is in range and the slice whose last element
    [ResolvePath] takes is not empty. *)
Theorem ResolvePath_no_panic fuel r ctx ndd names (fpath : Path) fetched :
  (forall ctx nd names fetched,
     ResolveOnce r ctx (DAG r) nd names fetched <> Panic
     /\ forall rest fetched',
          ResolveOnce r ctx (DAG r) nd names fetched
          <> Ret (None, rest, None) fetched') ->
  ResolveLinks fuel r ctx ndd names fetched <> Panic
  /\ ResolvePathComponents fuel r ctx fpath fetched <> Panic
  /\ ResolvePath fuel r ctx fpath fetched <> Panic.
Proof.
  intros Hro.
  assert (Hlinks : forall nd names fetched,
             ResolveLinks fuel r ctx nd names fetched <> Panic).
  { intros. unfold ResolveLinks. now apply ResolveLinks_loop_no_panic. }
  assert (Hcomp : forall res,
             ResolvePathComponents fuel r ctx fpath fetched = res ->
             match res with
             | Ret (Some nodes, _) _ => nodes <> []
             | Ret (None, err) _ => err <> None
             | Panic => False
             | OutOfFuel => True
             end).
  { intros res <-. unfold ResolvePathComponents.
    pose proof (SplitAbsPath_not_None fpath) as Hs.
    destruct (SplitAbsPath fpath) as [[e|[h parts]]|]; [discriminate| |congruence].
    unfold bind, DAGGet.
    destruct (Get (DAG r) ctx h) as [e|nd]; [discriminate|].
    pose proof (Hlinks nd parts (fetched ++ [h])%list) as Hl.
    destruct (ResolveLinks fuel r ctx nd parts (fetched ++ [h])%list)
      as [[nodes err] f'| |] eqn:E; [|congruence|exact I].
    unfold ResolveLinks in E. apply ResolveLinks_loop_prefix in E as [more ->].
    discriminate. }
  split; [apply Hlinks|]. split.
  - intros E. now apply Hcomp in E.
  - unfold ResolvePath. destruct (IsValid fpath); [discriminate|].
    unfold bind.
    pose proof (Hcomp _ eq_refl) as Hc.
    destruct (ResolvePathComponents fuel r ctx fpath fetched)
      as [[nodes err] f'| |]; [|contradiction|discriminate].
    destruct err; [discriminate|].
    destruct nodes as [nodes|]; [|discriminate].
    destruct (rev nodes) eqn:Er; [|discriminate].
    apply (f_equal (@rev Node)) in Er. rewrite rev_involutive in Er. now subst.
Qed.

(** X18. [ResolveToLastNode] does not panic when the single-hop resolver
    does not: a nil link leaves the loop before anything is done with it,
    whatever the error that comes with it. *)
Theorem ResolveToLastNode_no_panic fuel r ctx (fpath : Path) fetched :
  (forall ctx nd names fetched,
     ResolveOnce r ctx (DAG r) nd names fetched <> Panic) ->
  ResolveToLastNode fuel r ctx fpath fetched <> Panic.
Proof.
  intros Hro.
  assert (Hloop : forall fuel nd p fetched,
             ResolveToLastNode_loop fuel r ctx nd p fetched <> Panic).
  { clear fuel fetched.
    induction fuel as [|fuel IH]; intros nd p fetched.
    - destruct p; discriminate.
    - destruct p as [|n p]; [discriminate|]. simpl. unfold bind.
      pose proof (Hro ctx nd (n :: p) fetched) as Hp.
      destruct (ResolveOnce r ctx (DAG r) nd (n :: p) fetched)
        as [[[lnk rest] e] f1| |]; [|congruence|discriminate].
      destruct lnk as [l|]; [|discriminate].
      destruct e; [discriminate|].
      unfold GetNode, DAGGet.
      destruct (Get (DAG r) ctx (LinkCid l)); [discriminate | apply IH]. }
  unfold ResolveToLastNode.
  pose proof (SplitAbsPath_not_None fpath) as Hs.
  destruct (SplitAbsPath fpath) as [[e|[c p]]|]; [discriminate| |congruence].
  destruct (Nat.eqb (List.length p) 0); [discriminate|].
  unfold bind, DAGGet.
  destruct (Get (DAG r) ctx c) as [e|nd]; [discriminate|].
  pose proof (Hloop fuel nd p (fetched ++ [c])%list) as Hl.
  destruct (ResolveToLastNode_loop fuel r ctx nd p (fetched ++ [c])%list)
    as [[e|nd' p'] f'| |]; [discriminate|discriminate|congruence|discriminate].
Qed.

End EntryPoints.

Section Bounds.

Context {Ctx Cid Node : Type}.
Context `{CidCodec Cid} `{DagNode Cid Node} `{Context Ctx}.

Implicit Types (r : Resolver Ctx Cid Node) (ds : NodeGetter Ctx Cid Node).
Implicit Types (ctx : Ctx) (nd ndd root : Node) (names : list string).
Implicit Types (fetched : list Cid) (nodes result more : list Node).

Lemma ResolveLinks_loop_bounded r :
  (forall ctx nd names fetched,
     ResolveOnce r ctx (DAG r) nd names fetched <> OutOfFuel) ->
  (forall ctx nd names fetched l rest fetched1,
     ResolveOnce r ctx (DAG r) nd names fetched = Ret (Some l, rest, None) fetched1 ->
     List.length rest < List.length names) ->
  forall fuel ctx nd names result fetched,
    List.length names <= fuel ->
    ResolveLinks_loop fuel r ctx nd names result fetched <> OutOfFuel
    /\ forall nodes err fetched',
         ResolveLinks_loop fuel r ctx nd names result fetched
         = Ret (nodes, err) fetched' ->
         List.length nodes <= List.length result + List.length names.
Proof.
  intros Hof Hprog.
  induction fuel as [|fuel IH]; intros ctx nd names result fetched Hfuel.
  - destruct names; simpl in Hfuel; [|lia]. simpl. split; [discriminate|].
    intros nodes err fetched' E. injection E as <- _ _. lia.
  - destruct names as [|name names].
    + simpl. split; [discriminate|].
      intros nodes err fetched' E. injection E as <- _ _. lia.
    + simpl ResolveLinks_loop. unfold bind.
      pose proof (Hof (WithTimeout ctx Minute) nd (name :: names) fetched) as Hn.
      destruct (ResolveOnce r (WithTimeout ctx Minute) (DAG r) nd (name :: names) fetched)
        as [[[lnk rest] e] f1| |] eqn:Hro; [| |congruence].
      * destruct e as [e0|].
        -- split; [destruct (is_ErrLinkNotFound e0); discriminate|].
           intros nodes err fetched' E.
           destruct (is_ErrLinkNotFound e0); injection E as <- _ _; lia.
        -- destruct lnk as [l|].
           ++ unfold GetNode, DAGGet.
              destruct (Get (DAG r) (WithTimeout ctx Minute) (LinkCid l)) as [e|next].
              ** split; [discriminate|].
                 intros nodes err fetched' E. injection E as <- _ _. lia.
              ** apply Hprog in Hro. simpl in Hro, Hfuel.
                 destruct (IH (WithTimeout ctx Minute) next rest
                             (result ++ [next])%list (f1 ++ [LinkCid l])%list)
                   as (Hnf & Hlen); [lia|].
                 split; [exact Hnf|].
                 intros nodes err fetched' E. apply Hlen in E.
                 rewrite length_app in E. simpl in E |- *. lia.
           ++ split; discriminate.
      * split; discriminate.
Qed.

(** X19. When every successful hop of the single-hop resolver leaves fewer
    names than it was given, the walk of [ResolveLinks] ends within as many
    hops as there are names: fuel for that many hops is enough, and the
    sequence returned has at most one node more than there are names. *)
Theorem ResolveLinks_bounded fuel r ctx ndd names fetched :
  (forall ctx nd names fetched,
     ResolveOnce r ctx (DAG r) nd names fetched <> OutOfFuel) ->
  (forall ctx nd names fetched l rest fetched1,
     ResolveOnce r ctx (DAG r) nd names fetched = Ret (Some l, rest, None) fetched1 ->
     List.length rest < List.length names) ->
  List.length names <= fuel ->
  ResolveLinks fuel r ctx ndd names fetched <> OutOfFuel
  /\ forall nodes err fetched',
       ResolveLinks fuel r ctx ndd names fetched = Ret (nodes, err) fetched' ->
       List.length nodes <= S (List.length names).
Proof.
  intros Hof Hprog Hfuel. unfold ResolveLinks.
  destruct (@ResolveLinks_loop_bounded r Hof Hprog fuel ctx ndd names [ndd]
              fetched Hfuel) as (Hnf & Hlen).
  split; [exact Hnf|]. intros nodes err fetched' E. now apply Hlen in E.
Qed.

(** X20. [ResolvePath] returns a node or an error, never both and never
    neither: the nodes walked before a failure are not returned with the
    error. *)
Theorem ResolvePath_node_or_error fuel r ctx (fpath : Path) fetched node err fetched' :
  ResolvePath fuel r ctx fpath fetched = Ret (node, err) fetched' ->
  (exists n, node = Some n /\ err = None)
  \/ (exists e, node = None /\ err = Some e).
Proof.
  unfold ResolvePath. destruct (IsValid fpath) as [e|].
  - intros E. injection E as <- <- _. right. eauto.
  - unfold bind, ResolvePathComponents.
    destruct (SplitAbsPath fpath) as [[e|[h parts]]|]; [| |discriminate].
    + intros E. injection E as <- <- _. right. eauto.
    + unfold bind, DAGGet. destruct (Get (DAG r) ctx h) as [e|nd].
      * intros E. injection E as <- <- _. right. eauto.
      * destruct (ResolveLinks fuel r ctx nd parts (fetched ++ [h])%list)
          as [[nodes e] f'| |]; [|discriminate|discriminate].
        unfold ret. destruct e as [e|].
        -- intros E. injection E as <- <- _. right. eauto.
        -- destruct (rev nodes); [discriminate|].
           intros E. injection E as <- <- _. left. eauto.
Qed.

(** X21. [ResolveToLastNode] returns an identifier with no error, or an
    error with no identifier and no names. *)
Theorem ResolveToLastNode_cid_or_error fuel r ctx (fpath : Path) fetched
        c rest err fetched' :
  ResolveToLastNode fuel r ctx fpath fetched = Ret (c, rest, err) fetched' ->
  (exists id, c = Some id /\ err = None)
  \/ (exists e, c = None /\ rest = [] /\ err = Some e).
Proof.
  unfold ResolveToLastNode.
  destruct (SplitAbsPath fpath) as [[e|[h p]]|]; [| |discriminate].
  - intros E. injection E as <- <- <- _. right. eauto.
  - destruct (Nat.eqb (List.length p) 0).
    + intros E. injection E as <- <- <- _. left. eauto.
    + unfold bind, DAGGet. destruct (Get (DAG r) ctx h) as [e|nd].
      * intros E. injection E as <- <- <- _. right. eauto.
      * destruct (ResolveToLastNode_loop fuel r ctx nd p (fetched ++ [h])%list)
          as [[e|nd' p'] f'| |]; [| |discriminate|discriminate].
        -- intros E. injection E as <- <- <- _. right. eauto.
        -- unfold ret, ResolveToLastNode_tail.
           destruct (Nat.eqb (List.length p') 0).
           ++ intros E. injection E as <- <- <- _. left. eauto.
           ++ destruct (Resolve nd' p') as [[val rest'] e].
              destruct e as [e|].
              ** intros E. injection E as <- <- <- _. right. eauto.
              ** destruct (Nat.ltb 0 (List.length rest')).
                 --- intros E. injection E as <- <- <- _. right. eauto.
                 --- destruct val; intros E; injection E as <- <- <- _;
                       [right | left]; eauto.
Qed.

Lemma ResolveToLastNode_loop_chain ds ctx nd names nodes :
  (forall c1 c2 h, Get ds c1 h = Get ds c2 h) ->
  chain ds ctx nd names nodes ->
  forall ctx0 fuel fetched, List.length names <= fuel ->
    exists fetched',
      ResolveToLastNode_loop fuel (NewBasicResolver ds) ctx0 nd names fetched
      = Ret (HopsDone (last nodes nd) []) fetched'.
Proof.
  intros Hget.
  induction 1 as [ctx nd | ctx nd name names l next nodes Hrl Hg _ IH];
    intros ctx0 fuel fetched Hfuel.
  - exists fetched. destruct fuel; reflexivity.
  - destruct fuel as [|fuel]; [simpl in Hfuel; lia|].
    destruct (IH ctx0 fuel (fetched ++ [LinkCid l])%list) as (fetched' & Hrun);
      [simpl in Hfuel; lia|].
    exists fetched'. rewrite last_cons_default.
    simpl ResolveToLastNode_loop. unfold bind, ResolveSingle, ret.
    rewrite Hrl. unfold GetNode, DAGGet.
    change (Get (DAG (NewBasicResolver ds)) ctx0 (LinkCid l))
      with (Get ds ctx0 (LinkCid l)).
    rewrite (Hget ctx0 (WithTimeout ctx Minute)), Hg. exact Hrun.
Qed.

(** X22. On a chain of links, in a store whose answers do not depend on the
    context, [ResolveToLastNode] with the basic resolver returns no names
    and no error, and the identifier it returns is the one of the last node
    of the chain, the node [ResolvePath] returns; with no names at all it is
    the identifier decoded from the path. *)
Theorem ResolveToLastNode_chain ds ctx ctx0 root names nodes fuel
        (fpath : Path) (h : Cid) fetched :
  (forall c1 c2 h, Get ds c1 h = Get ds c2 h) ->
  chain ds ctx root names nodes -> List.length names <= fuel ->
  SplitAbsPath fpath = Some (inr (h, names)) ->
  Get ds ctx0 h = inr root ->
  exists fetched',
    ResolveToLastNode fuel (NewBasicResolver ds) ctx0 fpath fetched
    = Ret (Some match names with
                | [] => h
                | _ :: _ => NodeCid (last nodes root)
                end, [], None) fetched'.
Proof.
  intros Hget Hc Hfuel Hs Hg. unfold ResolveToLastNode. rewrite Hs.
  destruct names as [|name names]; [now exists fetched|].
  cbn [List.length Nat.eqb]. unfold bind, DAGGet.
  change (Get (DAG (NewBasicResolver ds)) ctx0 h) with (Get ds ctx0 h).
  rewrite Hg.
  destruct (ResolveToLastNode_loop_chain Hget Hc ctx0 (fetched ++ [h])%list Hfuel)
    as (fetched' & ->).
  now exists fetched'.
Qed.

Lemma walks_basic_fetched ds ctx nd names fetched more ctx' nd' names' fetched' :
  walks (NewBasicResolver ds) ctx nd names fetched more ctx' nd' names' fetched' ->
  exists cids, fetched' = (fetched ++ cids)%list
               /\ List.length cids = List.length more.
Proof.
  induction 1 as [|ctx nd name names fetched l rest fetched1 next nodes
                   ctx' nd' names' fetched' Hro _ _ IH].
  - exists []. now rewrite app_nil_r.
  - destruct IH as (cids & -> & Hlen).
    simpl in Hro. unfold ResolveSingle, ret in Hro.
    destruct (ResolveLink nd (name :: names)) as [[lnk rest0] e].
    injection Hro as _ _ _ <-.
    exists (LinkCid l :: cids). rewrite <- app_assoc. simpl. auto.
Qed.

(** X23. The fetches of [ResolveLinks] with the basic resolver. It asks the
    fetch service once for each node it returns after the root, in order,
    after what was fetched before. When it returns no error that is all. When
    it stops because the link lookup of the cursor node gave an error, that
    is all too: nothing is fetched for the failed hop. When it stops because
    the fetch of a link failed, that one fetch comes on top, last. *)
Theorem ResolveLinks_basic_fetches fuel ds ctx ndd names fetched nodes err fetched' :
  ResolveLinks fuel (NewBasicResolver ds) ctx ndd names fetched
  = Ret (nodes, err) fetched' ->
  exists more cids ctx' nd' names',
    nodes = ndd :: more
    /\ List.length cids = List.length more
    /\ walks (NewBasicResolver ds) ctx ndd names fetched more
             ctx' nd' names' (fetched ++ cids)%list
    /\ match err with
       | None => names' = [] /\ fetched' = (fetched ++ cids)%list
       | Some e =>
           (exists lnk rest e0,
              ResolveLink nd' names' = (lnk, rest, Some e0)
              /\ fetched' = (fetched ++ cids)%list)
           \/ (exists l rest,
              ResolveLink nd' names' = (Some l, rest, None)
              /\ Get ds (WithTimeout ctx' Minute) (LinkCid l) = inl e
              /\ fetched' = (fetched ++ cids ++ [LinkCid l])%list)
       end.
Proof.
  unfold ResolveLinks. intros E.
  apply ResolveLinks_loop_cases in E
    as (more & ctx' & nd' & names' & f1 & -> & Hw & Hstop).
  destruct (walks_basic_fetched Hw) as (cids & -> & Hlen).
  exists more, cids, ctx', nd', names'.
  split; [reflexivity|]. split; [exact Hlen|]. split; [exact Hw|].
  destruct err as [e|]; [|exact Hstop].
  destruct Hstop as (name & rest & -> & [(lnk & rest' & e0 & Hro & _)
                                         | (l & rest' & f2 & Hro & Hget & ->)]).
  - left. simpl in Hro. unfold ResolveSingle, ret in Hro.
    injection Hro as Hrl <-. exists lnk, rest', e0. auto.
  - right. simpl in Hro. unfold ResolveSingle, ret in Hro.
    injection Hro as Hrl <-. exists l, rest'.
    split; [exact Hrl|]. split; [exact Hget|]. now rewrite app_assoc.
Qed.

End Bounds.

(** ** The further properties on the sample store *)

Lemma ParsePath_prefixed_witness :
  ParsePath (Cid := Cid) "F01551220ABCD/a" = inr "/dms3fs/F01551220ABCD/a"
  /\ exists tag rest,
       "/dms3fs/F01551220ABCD/a" = "/" ++ tag ++ "/" ++ rest
       /\ (tag = "dms3fs" \/ tag = "dms3ns" \/ tag = "dms3ld").
Proof.
  assert (Hp : ParsePath (Cid := Cid) "F01551220ABCD/a"
               = inr "/dms3fs/F01551220ABCD/a") by reflexivity.
  split; [exact Hp|].
  exact (ParsePath_prefixed (Cid := Cid) "F01551220ABCD/a" Hp).
Defined.

Lemma ParsePath_errors_witness :
  Split "/dms3fs/zz-/a" = [""; "dms3fs"; "zz-"; "a"]
  /\ "zz-" <> ""
  /\ Decode (Cid := Cid) "zz-" = inl (ErrForeign "invalid cid")
  /\ ParsePath (Cid := Cid) "/dms3fs/zz-/a" = inl (ErrForeign "invalid cid").
Proof.
  assert (Hsplit : Split "/dms3fs/zz-/a" = [""; "dms3fs"; "zz-"; "a"])
    by reflexivity.
  assert (Hne : "zz-" <> "") by discriminate.
  assert (Hd : Decode (Cid := Cid) "zz-" = inl (ErrForeign "invalid cid"))
    by reflexivity.
  split; [exact Hsplit|]. split; [exact Hne|]. split; [exact Hd|].
  exact (proj2 (proj1 (ParsePath_errors (Cid := Cid) "/dms3fs/zz-/a")
                  "zz-" ["a"] Hsplit) _ Hne Hd).
Defined.

Lemma ParsePath_reparse_witness :
  ParsePath (Cid := Cid) "F01551220ABCD" = inr "/dms3fs/f01551220abcd"
  /\ (forall c, Decode "F01551220ABCD" = inr c ->
        CidString c <> "" /\ no_slash (CidString c)
        /\ exists c', Decode (CidString c) = inr c')
  /\ ParsePath (Cid := Cid) "/dms3fs/f01551220abcd" = inr "/dms3fs/f01551220abcd"
  /\ IsValid (Cid := Cid) "/dms3fs/f01551220abcd" = None.
Proof.
  assert (Hp : ParsePath (Cid := Cid) "F01551220ABCD"
               = inr "/dms3fs/f01551220abcd") by reflexivity.
  assert (Hc : forall c, Decode "F01551220ABCD" = inr c ->
        CidString c <> "" /\ no_slash (CidString c)
        /\ exists c', Decode (CidString c) = inr c').
  { intros c E. vm_compute in E. injection E as <-.
    split; [discriminate|]. split; [reflexivity|].
    exists "f01551220abcd". reflexivity. }
  split; [exact Hp|]. split; [exact Hc|].
  exact (ParsePath_reparse (Cid := Cid) "F01551220ABCD" Hp Hc).
Defined.

Lemma Segments_rooted_plain_witness :
  rooted "/dms3fs//a/./b/../c" = true
  /\ ((Clean "/dms3fs//a/./b/../c" = "/"
       /\ Segments "/dms3fs//a/./b/../c" = [""])
      \/ (Forall plain (Segments "/dms3fs//a/./b/../c")
          /\ Clean "/dms3fs//a/./b/../c"
             = "/" ++ Join (Segments "/dms3fs//a/./b/../c"))).
Proof.
  split; [reflexivity|].
  exact (Segments_rooted_plain "/dms3fs//a/./b/../c" eq_refl).
Defined.

Lemma SplitList_Join_witness :
  ["a"; ""; "b"] <> [] /\ Forall no_slash ["a"; ""; "b"]
  /\ PathLists.SplitList (PathLists.Join ["a"; ""; "b"]) = ["a"; ""; "b"].
Proof.
  assert (Hne : ["a"; ""; "b"] <> []) by discriminate.
  assert (Hall : Forall no_slash ["a"; ""; "b"]).
  { repeat constructor. }
  split; [exact Hne|]. split; [exact Hall|].
  exact (SplitList_Join Hne Hall).
Defined.

Lemma sample_plain_idR : plain idR.
Proof. repeat split; discriminate. Defined.

Lemma sample_plain_names : Forall plain ["child"; "grandchild"].
Proof.
  constructor; [repeat split; discriminate|].
  constructor; [repeat split; discriminate|]. constructor.
Defined.

Lemma FromSegments_Segments_witness :
  plain idR /\ Forall plain ["child"; "grandchild"]
  /\ Decode idR = inr idR
  /\ FromSegments (Cid := Cid) "/dms3fs/" [idR; "child"; "grandchild"]
     = inr testPath
  /\ Segments testPath = ["dms3fs"; idR; "child"; "grandchild"]
  /\ IsJustAKey testPath = false.
Proof.
  assert (Hd : Decode idR = inr idR) by reflexivity.
  split; [exact sample_plain_idR|]. split; [exact sample_plain_names|].
  split; [exact Hd|].
  exact (FromSegments_Segments (Cid := Cid) (tag := "dms3fs")
           sample_plain_idR sample_plain_names
           (or_introl (conj eq_refl (ex_intro _ idR Hd)))).
Defined.

Lemma SplitAbsPath_FromCid_witness :
  plain (CidString idR) /\ Decode (CidString idR) = inr idR
  /\ Segments (FromCid idR) = ["dms3fs"; idR]
  /\ SplitAbsPath (FromCid idR) = Some (inr (idR, []))
  /\ IsJustAKey (FromCid idR) = true
  /\ PopLastSegment (FromCid idR) = inr (FromCid idR, "").
Proof.
  assert (Hd : Decode (CidString idR) = inr idR) by reflexivity.
  split; [exact sample_plain_idR|]. split; [exact Hd|].
  exact (SplitAbsPath_FromCid idR sample_plain_idR Hd).
Defined.

Lemma SplitAbsPath_tag_optional_witness :
  plain idR /\ Forall plain ["child"; "grandchild"]
  /\ idR <> "dms3fs" /\ idR <> "dms3ld" /\ idR <> "dms3ns"
  /\ SplitAbsPath (Cid := Cid) ("/" ++ Join [idR; "child"; "grandchild"])
     = Some (inr (idR, ["child"; "grandchild"]))
  /\ SplitAbsPath (Cid := Cid) ("/" ++ Join ["dms3fs"; idR; "child"; "grandchild"])
     = Some (inr (idR, ["child"; "grandchild"]))
  /\ SplitAbsPath (Cid := Cid) ("/" ++ Join ["dms3ld"; idR; "child"; "grandchild"])
     = Some (inr (idR, ["child"; "grandchild"]))
  /\ ParsePath (Cid := Cid) ("/" ++ Join [idR; "child"; "grandchild"])
     = inl ErrBadPath.
Proof.
  assert (N1 : idR <> "dms3fs") by discriminate.
  assert (N2 : idR <> "dms3ld") by discriminate.
  assert (N3 : idR <> "dms3ns") by discriminate.
  split; [exact sample_plain_idR|]. split; [exact sample_plain_names|].
  split; [exact N1|]. split; [exact N2|]. split; [exact N3|].
  exact (SplitAbsPath_tag_optional (Cid := Cid)
           sample_plain_idR sample_plain_names N1 N2 N3).
Defined.

Lemma ParsePath_checks_uncleaned_witness :
  plain idR /\ plain "not-an-identifier" /\ Decode idR = inr idR
  /\ ParsePath (Cid := Cid) ("/dms3fs/" ++ idR ++ "/../" ++ "not-an-identifier")
     = inr ("/dms3fs/" ++ idR ++ "/../" ++ "not-an-identifier")
  /\ Segments ("/dms3fs/" ++ idR ++ "/../" ++ "not-an-identifier")
     = ["dms3fs"; "not-an-identifier"]
  /\ SplitAbsPath (Cid := Cid)
       ("/dms3fs/" ++ idR ++ "/../" ++ "not-an-identifier")
     = Some (inl (ErrForeign "invalid cid")).
Proof.
  assert (Hx : plain "not-an-identifier") by (repeat split; discriminate).
  assert (Hd : Decode idR = inr idR) by reflexivity.
  split; [exact sample_plain_idR|]. split; [exact Hx|]. split; [exact Hd|].
  exact (ParsePath_checks_uncleaned (Cid := Cid) sample_plain_idR Hx Hd).
Defined.

Lemma ResolveLinks_success_witness :
  ResolveLinks 5 basic background R ["child"; "grandchild"] []
  = Ret ([R; N1; N2], None) [idN1; idN2]
  /\ exists more ctx',
       [R; N1; N2] = R :: more
       /\ walks basic background R ["child"; "grandchild"] [] more
                ctx' (last [R; N1; N2] R) [] [idN1; idN2].
Proof.
  assert (Hrun : ResolveLinks 5 basic background R ["child"; "grandchild"] []
                 = Ret ([R; N1; N2], None) [idN1; idN2]) by reflexivity.
  split; [exact Hrun|].
  exact (ResolveLinks_success 5 basic background R ["child"; "grandchild"] [] Hrun).
Defined.

Lemma ResolveLinks_failure_witness :
  ResolveLinks 5 basic background R ["child"; "foo"] []
  = Ret ([R; N1], Some (ErrNoLink "foo" idN1)) [idN1]
  /\ exists more ctx' nd' name rest f1,
       [R; N1] = R :: more
       /\ walks basic background R ["child"; "foo"] [] more ctx' nd'
                (name :: rest) f1
       /\ ((exists lnk rest' e0,
              ResolveOnce basic (WithTimeout ctx' Minute) (DAG basic) nd'
                (name :: rest) f1 = Ret (lnk, rest', Some e0) [idN1]
              /\ ErrNoLink "foo" idN1
                 = if is_ErrLinkNotFound e0
                   then ErrNoLink name (NodeCid nd') else e0)
           \/ (exists l rest' f2,
              ResolveOnce basic (WithTimeout ctx' Minute) (DAG basic) nd'
                (name :: rest) f1 = Ret (Some l, rest', None) f2
              /\ Get (DAG basic) (WithTimeout ctx' Minute) (LinkCid l)
                 = inl (ErrNoLink "foo" idN1)
              /\ [idN1] = (f2 ++ [LinkCid l])%list)).
Proof.
  assert (Hrun : ResolveLinks 5 basic background R ["child"; "foo"] []
                 = Ret ([R; N1], Some (ErrNoLink "foo" idN1)) [idN1])
    by reflexivity.
  split; [exact Hrun|].
  exact (ResolveLinks_failure 5 basic background R ["child"; "foo"] [] Hrun).
Defined.

Lemma ResolveLinks_context_witness :
  ResolveLinks 5 basic background R ["child"; "grandchild"] []
  = Ret ([R; N1; N2], None) [idN1; idN2]
  /\ exists more ctx' nd' names' f1,
       [R; N1; N2] = R :: more
       /\ walks basic background R ["child"; "grandchild"] [] more
                ctx' nd' names' f1
       /\ ctx' = Nat.iter (List.length more)
                          (fun c => WithTimeout c Minute) background.
Proof.
  assert (Hrun : ResolveLinks 5 basic background R ["child"; "grandchild"] []
                 = Ret ([R; N1; N2], None) [idN1; idN2]) by reflexivity.
  split; [exact Hrun|].
  exact (ResolveLinks_context 5 basic background R ["child"; "grandchild"] [] Hrun).
Defined.

Lemma split_error_no_fetch_witness :
  SplitAbsPath (Cid := Cid) "/dms3fs" = Some (inl ErrNoComponents)
  /\ ResolvePathComponents 5 basic background "/dms3fs" []
     = Ret (None, Some ErrNoComponents) []
  /\ ResolveToLastNode 5 basic background "/dms3fs" []
     = Ret (None, [], Some ErrNoComponents) []
  /\ ResolvePath 5 basic background "/dms3fs" []
     = Ret (None, Some ErrBadPath) [].
Proof.
  assert (Hs : SplitAbsPath (Cid := Cid) "/dms3fs" = Some (inl ErrNoComponents))
    by reflexivity.
  split; [exact Hs|].
  exact (split_error_no_fetch 5 basic background "/dms3fs" [] Hs).
Defined.

Lemma dms3ns_path_not_resolved_witness :
  Forall plain [idR; "child"] /\ [idR; "child"] <> []
  /\ Decode (Cid := Cid) "dms3ns" = inl (ErrForeign "invalid cid")
  /\ IsValid (Cid := Cid) ("/" ++ Join ["dms3ns"; idR; "child"]) = None
  /\ ResolvePath 5 basic background ("/" ++ Join ["dms3ns"; idR; "child"]) []
     = Ret (None, Some (ErrForeign "invalid cid")) []
  /\ ResolveToLastNode 5 basic background
       ("/" ++ Join ["dms3ns"; idR; "child"]) []
     = Ret (None, [], Some (ErrForeign "invalid cid")) [].
Proof.
  assert (Hall : Forall plain [idR; "child"]).
  { constructor; [exact sample_plain_idR|].
    constructor; [repeat split; discriminate | constructor]. }
  assert (Hne : [idR; "child"] <> []) by discriminate.
  assert (Hd : Decode (Cid := Cid) "dms3ns" = inl (ErrForeign "invalid cid"))
    by reflexivity.
  split; [exact Hall|]. split; [exact Hne|]. split; [exact Hd|].
  exact (dms3ns_path_not_resolved 5 basic background [] Hall Hne Hd).
Defined.

Lemma sample_resolve_link_total (nd : Node) (names : list string) :
  forall rest, resolve_link nd names <> (None, rest, None).
Proof.
  intros rest. unfold resolve_link. destruct names as [|name names]; [discriminate|].
  destruct (find_link name (nlinks nd)); [discriminate|].
  destruct (has_field name (nfields nd)); discriminate.
Defined.

Lemma sample_hop_total :
  forall (ctx : Ctx) (nd : Node) (names : list string) (fetched : list Cid),
    ResolveOnce basic ctx (DAG basic) nd names fetched <> Panic
    /\ forall rest fetched',
         ResolveOnce basic ctx (DAG basic) nd names fetched
         <> Ret (None, rest, None) fetched'.
Proof.
  intros ctx nd names fetched. split; [discriminate|].
  intros rest fetched' E. simpl in E. unfold ResolveSingle, ret in E.
  injection E as E _. now apply sample_resolve_link_total in E.
Defined.

Lemma ResolvePath_no_panic_witness :
  (forall (ctx : Ctx) (nd : Node) (names : list string) (fetched : list Cid),
     ResolveOnce basic ctx (DAG basic) nd names fetched <> Panic
     /\ forall rest fetched',
          ResolveOnce basic ctx (DAG basic) nd names fetched
          <> Ret (None, rest, None) fetched')
  /\ ResolveLinks 1 basic background R ["child"; "grandchild"] [] <> Panic
  /\ ResolvePathComponents 1 basic background testPath [] <> Panic
  /\ ResolvePath 1 basic background testPath [] <> Panic.
Proof.
  split; [exact sample_hop_total|].
  exact (ResolvePath_no_panic 1 basic background R ["child"; "grandchild"]
           testPath [] sample_hop_total).
Defined.

Lemma ResolveToLastNode_no_panic_witness :
  (forall (ctx : Ctx) (nd : Node) (names : list string) (fetched : list Cid),
     ResolveOnce basic ctx (DAG basic) nd names fetched <> Panic)
  /\ ResolveToLastNode 1 basic background testPath [] <> Panic.
Proof.
  assert (Hro : forall (ctx : Ctx) (nd : Node) (names : list string)
                       (fetched : list Cid),
             ResolveOnce basic ctx (DAG basic) nd names fetched <> Panic)
    by (intros; discriminate).
  split; [exact Hro|].
  exact (ResolveToLastNode_no_panic 1 basic background testPath [] Hro).
Defined.

Lemma sample_hop_progress :
  forall (ctx : Ctx) (nd : Node) (names : list string) (fetched : list Cid)
         (l : Link Cid) (rest : list string) (fetched1 : list Cid),
    ResolveOnce basic ctx (DAG basic) nd names fetched
    = Ret (Some l, rest, None) fetched1 ->
    List.length rest < List.length names.
Proof.
  intros ctx nd names fetched l rest fetched1 E.
  simpl in E. unfold ResolveSingle, ret in E. injection E as E _.
  unfold resolve_link in E. destruct names as [|name names]; [discriminate|].
  destruct (find_link name (nlinks nd)).
  - injection E as _ <-. simpl. lia.
  - destruct (has_field name (nfields nd)); discriminate.
Defined.

Lemma ResolveLinks_bounded_witness :
  (forall (ctx : Ctx) (nd : Node) (names : list string) (fetched : list Cid),
     ResolveOnce basic ctx (DAG basic) nd names fetched <> OutOfFuel)
  /\ (forall (ctx : Ctx) (nd : Node) (names : list string) (fetched : list Cid)
             (l : Link Cid) (rest : list string) (fetched1 : list Cid),
        ResolveOnce basic ctx (DAG basic) nd names fetched
        = Ret (Some l, rest, None) fetched1 ->
        List.length rest < List.length names)
  /\ 2 <= 2
  /\ ResolveLinks 2 basic background R ["child"; "grandchild"] [] <> OutOfFuel
  /\ forall nodes err fetched',
       ResolveLinks 2 basic background R ["child"; "grandchild"] []
       = Ret (nodes, err) fetched' ->
       List.length nodes <= 3.
Proof.
  assert (Hof : forall (ctx : Ctx) (nd : Node) (names : list string)
                       (fetched : list Cid),
             ResolveOnce basic ctx (DAG basic) nd names fetched <> OutOfFuel)
    by (intros; discriminate).
  split; [exact Hof|]. split; [exact sample_hop_progress|]. split; [lia|].
  exact (ResolveLinks_bounded (fuel := 2) basic background R
           ["child"; "grandchild"] [] Hof sample_hop_progress (le_n 2)).
Defined.

Lemma ResolvePath_node_or_error_witness :
  ResolvePath 5 basic background (testPath ++ "/foo") []
  = Ret (None, Some (ErrForeign "non-link found at given path"))
        [idR; idN1; idN2]
  /\ ((exists n, @None Node = Some n
                 /\ Some (ErrForeign (Cid := Cid) "non-link found at given path")
                    = None)
      \/ (exists e, @None Node = None
                    /\ Some (ErrForeign (Cid := Cid)
                                "non-link found at given path") = Some e)).
Proof.
  assert (Hrun : ResolvePath 5 basic background (testPath ++ "/foo") []
                 = Ret (None, Some (ErrForeign "non-link found at given path"))
                       [idR; idN1; idN2]) by reflexivity.
  split; [exact Hrun|].
  exact (ResolvePath_node_or_error 5 basic background (testPath ++ "/foo") [] Hrun).
Defined.

Lemma ResolveToLastNode_cid_or_error_witness :
  ResolveToLastNode 5 basic background (testPath ++ "/foo") []
  = Ret (Some idN2, ["foo"], None) [idR; idN1; idN2]
  /\ ((exists id, Some idN2 = Some id /\ @None (error Cid) = None)
      \/ (exists e : error Cid,
            Some idN2 = None /\ ["foo"] = [] /\ None = Some e)).
Proof.
  assert (Hrun : ResolveToLastNode 5 basic background (testPath ++ "/foo") []
                 = Ret (Some idN2, ["foo"], None) [idR; idN1; idN2])
    by reflexivity.
  split; [exact Hrun|].
  exact (ResolveToLastNode_cid_or_error 5 basic background
           (testPath ++ "/foo") [] Hrun).
Defined.

Lemma ResolveToLastNode_chain_witness :
  (forall (c1 c2 : Ctx) (h : Cid),
     Get (dagService store) c1 h = Get (dagService store) c2 h)
  /\ chain (dagService store) background R ["child"; "grandchild"] [N1; N2]
  /\ 2 <= 5
  /\ SplitAbsPath testPath = Some (inr (idR, ["child"; "grandchild"]))
  /\ Get (dagService store) background idR = inr R
  /\ exists fetched',
       ResolveToLastNode 5 basic background testPath []
       = Ret (Some idN2, [], None) fetched'.
Proof.
  assert (Hget : forall (c1 c2 : Ctx) (h : Cid),
             Get (dagService store) c1 h = Get (dagService store) c2 h)
    by reflexivity.
  assert (Hs : SplitAbsPath testPath = Some (inr (idR, ["child"; "grandchild"])))
    by reflexivity.
  assert (Hg : Get (dagService store) background idR = inr R) by reflexivity.
  assert (Hfuel : 2 <= 5) by lia.
  split; [exact Hget|]. split; [exact sample_chain|]. split; [exact Hfuel|].
  split; [exact Hs|]. split; [exact Hg|].
  exact (ResolveToLastNode_chain background testPath []
           Hget sample_chain Hfuel Hs Hg).
Defined.

Lemma ResolveLinks_basic_fetches_witness :
  ResolveLinks 5 (NewBasicResolver (dagService [R; N2])) background R
    ["child"; "grandchild"] []
  = Ret ([R], Some (ErrForeign "not found")) [idN1]
  /\ exists more cids ctx' nd' names',
       [R] = R :: more
       /\ List.length cids = List.length more
       /\ walks (NewBasicResolver (dagService [R; N2])) background R
                ["child"; "grandchild"] [] more ctx' nd' names' ([] ++ cids)%list
       /\ ((exists lnk rest e0,
              ResolveLink nd' names' = (lnk, rest, Some e0)
              /\ [idN1] = ([] ++ cids)%list)
           \/ (exists l rest,
              ResolveLink nd' names' = (Some l, rest, None)
              /\ Get (dagService [R; N2]) (WithTimeout ctx' Minute) (LinkCid l)
                 = inl (ErrForeign "not found")
              /\ [idN1] = ([] ++ cids ++ [LinkCid l])%list)).
Proof.
  assert (Hrun : ResolveLinks 5 (NewBasicResolver (dagService [R; N2]))
                   background R ["child"; "grandchild"] []
                 = Ret ([R], Some (ErrForeign "not found")) [idN1])
    by reflexivity.
  split; [exact Hrun|].
  exact (ResolveLinks_basic_fetches 5 (dagService [R; N2]) background R
           ["child"; "grandchild"] [] Hrun).
Defined.

(** ** The hop failures of [ResolveToLastNode], and a link named [..] *)

Lemma sample_follows :
  follows basic background R ["child"; "grandchild"; "foo"] [idR] [N1; N2]
          N2 ["foo"] [idR; idN1; idN2].
Proof.
  eapply follows_hop with (l := mkLink "child" 0%N idN1) (fetched1 := [idR]);
    [reflexivity | reflexivity |].
  eapply follows_hop with (l := mkLink "grandchild" 0%N idN2)
                          (fetched1 := [idR; idN1]);
    [reflexivity | reflexivity |].
  apply follows_refl.
Defined.

Lemma ResolveToLastNode_hop_failure_witness :
  SplitAbsPath (Cid := Cid) (testPath ++ "/foo")
    = Some (inr (idR, ["child"; "grandchild"; "foo"]))
  /\ ["child"; "grandchild"; "foo"] <> []
  /\ Get (DAG basic) background idR = inr R
  /\ follows basic background R ["child"; "grandchild"; "foo"] [idR] [N1; N2]
             N2 ["foo"] [idR; idN1; idN2]
  /\ ["foo"] <> [] /\ 2 < 5
  /\ ResolveOnce basic background (DAG basic) N2 ["foo"] [idR; idN1; idN2]
     = Ret (None, [], Some (ErrForeign "non-link found at given path"))
           [idR; idN1; idN2]
  /\ Resolve N2 ["foo"] = (VOther "foo", [], None)
  /\ ResolveToLastNode 5 basic background (testPath ++ "/foo") []
     = Ret (Some idN2, ["foo"], None) [idR; idN1; idN2].
Proof.
  assert (Hs : SplitAbsPath (Cid := Cid) (testPath ++ "/foo")
               = Some (inr (idR, ["child"; "grandchild"; "foo"])))
    by reflexivity.
  assert (Hp0 : ["child"; "grandchild"; "foo"] <> []) by discriminate.
  assert (Hg : Get (DAG basic) background idR = inr R) by reflexivity.
  assert (Hp : ["foo"] <> []) by discriminate.
  assert (Hfuel : 2 < 5) by lia.
  assert (Hro : ResolveOnce basic background (DAG basic) N2 ["foo"]
                  [idR; idN1; idN2]
                = Ret (None, [], Some (ErrForeign "non-link found at given path"))
                      [idR; idN1; idN2]) by reflexivity.
  assert (Hres : Resolve N2 ["foo"] = (VOther "foo", [], None)) by reflexivity.
  split; [exact Hs|]. split; [exact Hp0|]. split; [exact Hg|].
  split; [exact sample_follows|]. split; [exact Hp|]. split; [exact Hfuel|].
  split; [exact Hro|]. split; [exact Hres|].
  destruct (ResolveToLastNode_hop_failure (fuel := 5) (testPath ++ "/foo") []
              Hs Hp0 Hg sample_follows Hp Hfuel) as (Hnil & _).
  destruct (Hnil _ _ _ Hro) as (_ & _ & _ & Hother).
  exact (Hother "foo" Hres).
Defined.

(** C1. In the second graph [Rd; M1; M2] is a chain under the names [a]
    and [..], and [ResolveLinks] returns it; but the full path of the root's
    identifier and these names cleans to the path of the root alone, and
    [ResolvePath] on it returns the root, not the last node [M2]. *)
Lemma ResolvePath_link_named_dotdot :
  chain (dagService dotStore) background Rd ["a"; ".."] [M1; M2]
  /\ ResolveLinks 5 (NewBasicResolver (dagService dotStore)) background Rd
       ["a"; ".."] []
     = Ret ([Rd; M1; M2], None) [idM1; idM2]
  /\ FromSegments (Cid := Cid) "/dms3fs/" [idR; "a"; ".."]
     = inr ("/dms3fs/" ++ idR ++ "/a/..")
  /\ ResolvePath 5 (NewBasicResolver (dagService dotStore)) background
       ("/dms3fs/" ++ idR ++ "/a/..") []
     = Ret (Some Rd, None) [idR]
  /\ Rd <> M2.
Proof.
  split.
  - eapply chain_cons; [reflexivity | reflexivity |].
    eapply chain_cons; [reflexivity | reflexivity |].
    apply chain_nil.
  - repeat split. discriminate.
Qed.
